(** * dfvsync: Dockerfile version sync

    A shallow embedding of [dfvsync.py] and the properties of its version
    extraction, tracked-file handling, reconciliation and publishing loop.

    Conventions of the model.
    - A Python [str] is a list of code points; the model covers the code
      points below 256 (type [ascii] read as Latin-1), for which Python's
      Unicode classes [\d] and [\s] are the finite sets written out below.
    - [re.search] is modelled by a small backtracking matcher over the
      abstract syntax of a pattern; alternatives are explored in Python's
      priority order (greedy repetition first, leftmost start first).
    - Exceptions are values of type [exn]; a function that can raise
      returns [result].
    - A tracked file is the text that reading it returns; decoding,
      encoding and newline translation of the file layer are not
      modelled, nor are failures of the network.
    - [logger] calls do not influence any result and are left out. *)

From Stdlib Require Import Ascii String List Arith ZArith Lia Bool.
From Stdlib Require Import Permutation Sorted.
Import ListNotations.

Open Scope list_scope.

Set Implicit Arguments.

(** ** Strings *)

Definition str := list ascii.

Definition lit (s : string) : str := list_ascii_of_string s.

Arguments lit s%_string.

Definition code (c : ascii) : nat := nat_of_ascii c.

Definition str_eq_dec : forall a b : str, {a = b} + {a <> b} :=
  list_eq_dec ascii_dec.

Definition str_eqb (a b : str) : bool :=
  if str_eq_dec a b then true else false.

(** Python's [<] on [str]: lexicographic on code points, a proper prefix
    is smaller. *)
Fixpoint str_ltb (a b : str) : bool :=
  match a, b with
  | [], [] => false
  | [], _ :: _ => true
  | _ :: _, [] => false
  | x :: a', y :: b' =>
      if code x <? code y then true
      else if code y <? code x then false
      else str_ltb a' b'
  end.

Definition str_leb (a b : str) : bool := negb (str_ltb b a).

(** [\d] on Latin-1: the ten ASCII digits. *)
Definition is_digit (c : ascii) : bool :=
  (48 <=? code c) && (code c <=? 57).

(** [\s] on Latin-1: TAB LF VT FF CR, FS GS RS US, SPACE, NEL, NBSP. *)
Definition is_space (c : ascii) : bool :=
  ((9 <=? code c) && (code c <=? 13))
  || ((28 <=? code c) && (code c <=? 32))
  || (code c =? 133) || (code c =? 160).

Definition is_char (x : ascii) (c : ascii) : bool :=
  code c =? code x.

(** ** The [re] module, as far as the program uses it *)

Module Re.

(** A compiled pattern.  [Group] marks capturing group 1, the only group
    the program reads; any other parenthesis of the pattern is
    structure only. *)
Inductive regex : Type :=
| Eps
| Cls (p : ascii -> bool)
| Cat (r1 r2 : regex)
| Alt (r1 r2 : regex)
| Star (r : regex)
| Group (r : regex).

Definition Plus (r : regex) : regex := Cat r (Star r).
Definition Opt (r : regex) : regex := Alt r Eps.

Fixpoint Lit (s : str) : regex :=
  match s with
  | [] => Eps
  | c :: tl => Cat (Cls (is_char c)) (Lit tl)
  end.

Fixpoint groups (r : regex) : nat :=
  match r with
  | Eps | Cls _ => 0
  | Cat r1 r2 | Alt r1 r2 => groups r1 + groups r2
  | Star r => groups r
  | Group r => S (groups r)
  end.

(** A matcher state: the text still to read, the index reached, and the
    span of group 1 when it has taken part. *)
Record mstate : Type := MState {
  rest : str;
  pos : nat;
  cap : option (nat * nat)
}.

(** Greedy repetition: one more iteration is preferred to stopping.  An
    iteration that consumes nothing is accepted and ends the repetition.
    [fuel] bounds the number of iterations; one more than the length of
    the text left is enough, since all but the last consume. *)
Fixpoint star_loop (body : mstate -> list mstate) (fuel : nat)
    (st : mstate) : list mstate :=
  match fuel with
  | O => [st]
  | S f =>
      flat_map
        (fun st' =>
           if length (rest st') <? length (rest st)
           then star_loop body f st' else [st'])
        (body st)
      ++ [st]
  end.

(** All ways of matching [r] at [st], best first. *)
Fixpoint run (r : regex) (st : mstate) : list mstate :=
  match r with
  | Eps => [st]
  | Cls p =>
      match rest st with
      | c :: tl => if p c then [MState tl (S (pos st)) (cap st)] else []
      | [] => []
      end
  | Cat r1 r2 => flat_map (run r2) (run r1 st)
  | Alt r1 r2 => run r1 st ++ run r2 st
  | Star r => star_loop (run r) (S (length (rest st))) st
  | Group r =>
      map (fun st' => MState (rest st') (pos st') (Some (pos st, pos st')))
          (run r st)
  end.

(** Leftmost start position with a match. *)
Fixpoint search_from (r : regex) (s : str) (i : nat) : option mstate :=
  match run r (MState s i None) with
  | m :: _ => Some m
  | [] =>
      match s with
      | [] => None
      | _ :: tl => search_from r tl (S i)
      end
  end.

(** A match object: the searched string, the pattern's number of groups,
    and the span of group 1 ([None] is Python's [(-1, -1)]). *)
Record Match : Type := MkMatch {
  m_string : str;
  m_groups : nat;
  m_span1 : option (nat * nat)
}.

Definition search (r : regex) (s : str) : option Match :=
  match search_from r s 0 with
  | Some st => Some (MkMatch s (groups r) (cap st))
  | None => None
  end.

(** [s[a:b]] for [0 <= a], [0 <= b]. *)
Definition slice (s : str) (a b : nat) : str := firstn (b - a) (skipn a s).

End Re.

Import Re.

(** ** Exceptions *)

Inductive exn : Type :=
| NameError (name : string)
| TypeError
| IndexError
| FileNotFoundError (filename : str)
| ValueError_no_match (pattern : regex) (filename : str)
| ValueError_two_versions (version : str) (file_version : option str)
| ValueError_unknown_provider (provider : str)
| InvalidVersion (text : str).

Inductive result (A : Type) : Type :=
| Ok (a : A)
| Raise (e : exn).

Arguments Ok {A} a.
Arguments Raise {A} e.

(** [m.span(1)] *)
Definition span1 (m : Match) : result (option (nat * nat)) :=
  if m_groups m =? 0 then Raise IndexError else Ok (m_span1 m).

(** [m.group(1)]; [Ok None] is Python's [None] for a group that took no
    part in the match. *)
Definition group1 (m : Match) : result (option str) :=
  match span1 m with
  | Raise e => Raise e
  | Ok None => Ok None
  | Ok (Some (a, b)) => Ok (Some (slice (m_string m) a b))
  end.


(** ** [get_version] *)

Definition space_or_v (c : ascii) : bool := is_space c || is_char "v"%char c.

(** The pattern of [get_version], spaced out: [\sv] ( \d+ (?: \. \d+ )* ),
    that is one whitespace character or the letter v, then group 1: one
    or more digits followed by any number of dot-and-digits groups. *)
Definition version_re : regex :=
  Cat (Cls space_or_v)
      (Group (Cat (Plus (Cls is_digit))
                  (Star (Cat (Cls (is_char "."%char)) (Plus (Cls is_digit)))))).

Definition get_version (tag : str) : option str :=
  match search version_re tag with
  | None => None
  | Some m =>
      (* [version_re] has a group 1, so [m.group(1)] cannot raise *)
      match group1 m with
      | Ok v => v
      | Raise _ => None
      end
  end.

(** Python truthiness of a value that is [None] or a [str]. *)
Definition truthy (v : option str) : bool :=
  match v with
  | None | Some [] => false
  | Some (_ :: _) => true
  end.

(** ** Containers *)

(** A [dict] with [str] keys, in insertion order; assigning to a key
    that is present replaces the value in place. *)
Definition dict (V : Type) := list (str * V).

Fixpoint dict_set {V : Type} (d : dict V) (k : str) (v : V) : dict V :=
  match d with
  | [] => [(k, v)]
  | (k', v') :: tl =>
      if str_eqb k' k then (k', v) :: tl else (k', v') :: dict_set tl k v
  end.

Definition dict_values {V : Type} (d : dict V) : list V := map snd d.

(** [sorted(xs, key=...)] with [str] keys: a stable sort for [<]. *)
Fixpoint insert_by {A : Type} (key : A -> str) (x : A) (l : list A)
    : list A :=
  match l with
  | [] => [x]
  | y :: tl =>
      if str_ltb (key y) (key x) then y :: insert_by key x tl
      else x :: y :: tl
  end.

Definition sorted {A : Type} (key : A -> str) (l : list A) : list A :=
  fold_right (insert_by key) [] l.

(** ** Releases and builds *)

Record Release : Type := MkRelease {
  version : str;
  name : str;
  url : str;
  tag : str;
  archive_url : str
}.

Record DockerBuild : Type := MkDockerBuild {
  build_version : str;
  build_tag : str;
  build_status : Z
}.

(** One element of the JSON array of the releases listing. *)
Record release_dict : Type := MkReleaseDict {
  rd_tag_name : str;
  rd_name : str;
  rd_url : str;
  rd_tarball_url : str
}.

(** One element of the [results] array of the build history. *)
Record build_dict : Type := MkBuildDict {
  bd_dockertag_name : str;
  bd_status : Z
}.

Definition release_of (v : str) (rd : release_dict) : Release :=
  MkRelease v (rd_name rd) (rd_url rd) (rd_tag_name rd) (rd_tarball_url rd).

(** The loop body of [GithubRepo.get_releases]. *)
Definition add_release (releases : dict Release) (rd : release_dict)
    : dict Release :=
  let v := get_version (rd_tag_name rd) in
  if negb (truthy v) then releases
  else match v with
       | Some v => dict_set releases v (release_of v rd)
       | None => releases
       end.

(** [GithubRepo.get_releases]; the argument is the decoded JSON answer. *)
Definition get_releases (top : nat) (releases_dict : list release_dict)
    : list Release :=
  let releases := fold_left add_release (firstn top releases_dict) [] in
  sorted version (dict_values releases).

Definition IGNORE_TAGS : list str := [lit "latest"].

Definition str_in (x : str) (l : list str) : bool := existsb (str_eqb x) l.

(** The loop of [DockerhubRepo.get_builds].  The assignment that closes
    the body evaluates its right-hand side first, and there the name
    [release_dict] is bound neither in the method nor in the module, so
    the first entry that passes the three tests raises [NameError] and
    [builds] never receives an item. *)
Fixpoint get_builds_loop (results : list build_dict)
    (builds : dict DockerBuild) : result (dict DockerBuild) :=
  match results with
  | [] => Ok builds
  | bd :: tl =>
      if str_in (bd_dockertag_name bd) IGNORE_TAGS
      then get_builds_loop tl builds
      else
        let v := get_version (bd_dockertag_name bd) in
        if negb (truthy v) then get_builds_loop tl builds
        else if (bd_status bd <? 0)%Z then get_builds_loop tl builds
        else Raise (NameError "release_dict")
  end.

(** [DockerhubRepo.get_builds]; the argument is the [results] array. *)
Definition get_builds (results : list build_dict)
    : result (list DockerBuild) :=
  match get_builds_loop results [] with
  | Ok builds => Ok (sorted build_version (dict_values builds))
  | Raise e => Raise e
  end.

(** ** Tracked files *)

(** The text files of the working directory, by name. *)
Definition store := str -> option str.

Definition write (fs : store) (filename contents : str) : store :=
  fun f => if str_eqb f filename then Some contents else fs f.

(** [version != file_version], both [None] or a [str]. *)
Definition opt_str_eqb (a b : option str) : bool :=
  match a, b with
  | None, None => true
  | Some x, Some y => str_eqb x y
  | _, _ => false
  end.

(** The loop of [files_version]; [files] is the [files] section of the
    configuration in file order, each pattern already compiled. *)
Fixpoint files_version_loop (fs : store) (files : list (str * regex))
    (version : option str) : result (option str) :=
  match files with
  | [] => Ok version
  | (filename, regex) :: tl =>
      match fs filename with
      | None => Raise (FileNotFoundError filename)
      | Some contents =>
          match search regex contents with
          | None => Raise (ValueError_no_match regex filename)
          | Some m =>
              match group1 m with
              | Raise e => Raise e
              | Ok file_version =>
                  if truthy version && negb (opt_str_eqb version file_version)
                  then Raise (ValueError_two_versions
                                (match version with Some v => v | None => [] end)
                                file_version)
                  else files_version_loop fs tl file_version
              end
          end
      end
  end.

Definition files_version (fs : store) (files : list (str * regex))
    : result (option str) :=
  files_version_loop fs files None.

(** [contents[:s] + version + contents[t:]] for [s, t = m.span(1)];
    a group that took no part has span [(-1, -1)], and the slices are
    then [contents[:-1]] and [contents[-1:]]. *)
Definition replace_span (contents : str) (span : option (nat * nat))
    (version : str) : str :=
  match span with
  | Some (s, t) => firstn s contents ++ version ++ skipn t contents
  | None =>
      firstn (length contents - 1) contents ++ version
      ++ skipn (length contents - 1) contents
  end.

(** [update_files_version]; the store reached is returned also when an
    exception leaves the loop, since earlier files stay rewritten. *)
Fixpoint update_files_version (files : list (str * regex)) (version : str)
    (fs : store) : store * result unit :=
  match files with
  | [] => (fs, Ok tt)
  | (filename, regex) :: tl =>
      match fs filename with
      | None => (fs, Raise (FileNotFoundError filename))
      | Some contents =>
          match search regex contents with
          | None => (fs, Raise (ValueError_no_match regex filename))
          | Some m =>
              match span1 m with
              | Raise e => (fs, Raise e)
              | Ok span =>
                  update_files_version tl version
                    (write fs filename (replace_span contents span version))
              end
          end
      end
  end.

(** ** [pkg_resources.parse_version]

    The library is modelled on the texts [get_version] can return, dotted
    groups of digits: such a text is a release segment [N(.N)*] of a
    version with no epoch, pre-, post-, development or local part, and
    two such versions compare by their release tuples with trailing
    zeros removed.  On any other text the model stops with
    [InvalidVersion]. *)

Fixpoint int_acc (acc : N) (s : str) : N :=
  match s with
  | [] => acc
  | c :: tl => int_acc (10 * acc + N.of_nat (code c - 48))%N tl
  end.

(** [int(s)] on a string of ASCII digits. *)
Definition int (s : str) : N := int_acc 0%N s.

(** [s.split('.')] *)
Fixpoint split_dot (s : str) : list str :=
  match s with
  | [] => [[]]
  | c :: tl =>
      if is_char "."%char c then [] :: split_dot tl
      else match split_dot tl with
           | p :: ps => (c :: p) :: ps
           | [] => [[c]]
           end
  end.

Definition all_digits (p : str) : bool :=
  match p with
  | [] => false
  | _ :: _ => forallb is_digit p
  end.

Record Version : Type := MkVersion { release : list N }.

Definition parse_version (text : option str) : result Version :=
  match text with
  | None => Raise TypeError
  | Some s =>
      let parts := split_dot s in
      if forallb all_digits parts then Ok (MkVersion (map int parts))
      else Raise (InvalidVersion s)
  end.

Fixpoint dropwhile {A : Type} (p : A -> bool) (l : list A) : list A :=
  match l with
  | [] => []
  | x :: tl => if p x then dropwhile p tl else l
  end.

(** The comparison key of a version: the release tuple without its
    trailing zeros. *)
Definition cmpkey (v : Version) : list N :=
  rev (dropwhile (N.eqb 0) (rev (release v))).

(** Python's [<] on tuples of integers. *)
Fixpoint tuple_ltb (a b : list N) : bool :=
  match a, b with
  | [], [] => false
  | [], _ :: _ => true
  | _ :: _, [] => false
  | x :: a', y :: b' =>
      if (x <? y)%N then true
      else if (y <? x)%N then false
      else tuple_ltb a' b'
  end.

Definition version_gtb (a b : Version) : bool :=
  tuple_ltb (cmpkey b) (cmpkey a).

Definition tuple_eqb (a b : list N) : bool :=
  if list_eq_dec N.eq_dec a b then true else false.

Definition version_eqb (a b : Version) : bool :=
  tuple_eqb (cmpkey a) (cmpkey b).

(** ** Reconciliation: the two list comprehensions of [main] *)

(** [[release for release in releases
      if parse_version(release.version) > min_version]] *)
Fixpoint baseline_filter (min_version : Version) (releases : list Release)
    : result (list Release) :=
  match releases with
  | [] => Ok []
  | r :: tl =>
      match parse_version (Some (version r)) with
      | Raise e => Raise e
      | Ok v =>
          match baseline_filter min_version tl with
          | Raise e => Raise e
          | Ok tl' => Ok (if version_gtb v min_version then r :: tl' else tl')
          end
      end
  end.

(** [{build.version for build in builds}] and the filter on it. *)
Definition build_versions (builds : list DockerBuild) : list str :=
  map build_version builds.

Definition exclude_built (releases : list Release)
    (builds : list DockerBuild) : list Release :=
  filter (fun r => negb (str_in (version r) (build_versions builds)))
         releases.

Definition reconcile (releases : list Release) (builds : list DockerBuild)
    (baseline : option str) : result (list Release) :=
  match parse_version baseline with
  | Raise e => Raise e
  | Ok min_version =>
      match baseline_filter min_version releases with
      | Raise e => Raise e
      | Ok newer => Ok (exclude_built newer builds)
      end
  end.

(** ** Publishing: [os.system] and [create_version_commit] *)

(** The command lines the program hands to [os.system], by shape; the
    arguments are the values that [shlex.quote] receives. *)
Inductive command : Type :=
| git_add (filename : str)
| git_config_user_email (email : str)
| git_config_user_name (user : str)
| git_commit (service_name version : str)
| git_tag (version : str)
| git_push.

Section Shell.

(** Everything a command can read or change besides the tracked files:
    the repository, its remote, the network. *)
Variable Env : Type.

(** What running a command does: a new environment and an exit status.
    The [git] commands used here read the working tree and leave its
    files as they are. *)
Variable os_system : command -> store -> Env -> Env * Z.

Record world : Type := MkWorld {
  w_files : store;
  w_env : Env;
  w_trace : list (command * Z)
}.

(** [os.system(cmd)]: runs the command and returns its exit status; the
    call is recorded in the trace. *)
Definition system (c : command) (w : world) : world * Z :=
  let (env', status) := os_system c (w_files w) (w_env w) in
  (MkWorld (w_files w) env' (w_trace w ++ [(c, status)]), status).

(** A call whose returned status is dropped, as in every call site. *)
Definition system_ (c : command) (w : world) : world := fst (system c w).

Definition create_version_commit (service_name : str)
    (files : list (str * regex)) (version : str)
    (git_user_email git_user_name : str) (w : world) : world :=
  let w := fold_left (fun w filename => system_ (git_add filename) w)
                     (map fst files) w in
  let w := if truthy (Some git_user_email)
           then system_ (git_config_user_email git_user_email) w else w in
  let w := if truthy (Some git_user_name)
           then system_ (git_config_user_name git_user_name) w else w in
  let w := system_ (git_commit service_name version) w in
  let w := system_ (git_tag version) w in
  system_ git_push w.

(** ** [main] *)

Record Config : Type := MkConfig {
  source_provider : str;
  source_repo_name : str;
  docker_provider : str;
  files : list (str * regex);
  git_user_email : str;
  git_user_name : str
}.

(** [str.lower] as far as a comparison with an ASCII word can tell. *)
Definition lower_char (c : ascii) : ascii :=
  if (65 <=? code c) && (code c <=? 90) then ascii_of_nat (code c + 32)
  else c.

Definition lower (s : str) : str := map lower_char s.

(** The [for release in releases] loop that ends [main]. *)
Fixpoint publish_loop (config : Config) (releases : list Release)
    (w : world) : world * result unit :=
  match releases with
  | [] => (w, Ok tt)
  | r :: tl =>
      match update_files_version (files config) (version r) (w_files w) with
      | (fs', Raise e) => (MkWorld fs' (w_env w) (w_trace w), Raise e)
      | (fs', Ok _) =>
          publish_loop config tl
            (create_version_commit (source_repo_name config) (files config)
               (version r) (git_user_email config) (git_user_name config)
               (MkWorld fs' (w_env w) (w_trace w)))
      end
  end.

(** [main] from the call of [files_version] on. *)
Definition main_reconcile (config : Config) (releases : list Release)
    (builds : list DockerBuild) (w : world) : world * result unit :=
  match files_version (w_files w) (files config) with
  | Raise e => (w, Raise e)
  | Ok dockerfile_version =>
      match reconcile releases builds dockerfile_version with
      | Raise e => (w, Raise e)
      | Ok [] => (w, Ok tt)
      | Ok releases => publish_loop config releases w
      end
  end.

(** [main], given the two decoded HTTP answers. *)
Definition main (config : Config) (releases_dict : list release_dict)
    (results : list build_dict) (w : world) : world * result unit :=
  if negb (str_eqb (lower (source_provider config)) (lower (lit "Github")))
  then (w, Raise (ValueError_unknown_provider (source_provider config)))
  else
    let releases := get_releases 5 releases_dict in
    if negb (str_eqb (lower (docker_provider config))
                     (lower (lit "Dockerhub")))
    then (w, Raise (ValueError_unknown_provider (docker_provider config)))
    else
      match get_builds results with
      | Raise e => (w, Raise e)
      | Ok builds => main_reconcile config releases builds w
      end.

End Shell.

Arguments MkWorld {Env} w_files w_env w_trace.

(** ** The version pattern read directly

    What the pattern of [get_version] accepts, written as a scan of the
    tag; [get_version_scan] below is proved equal to [get_version]. *)

Definition starts_with_digit (s : str) : bool :=
  match s with
  | c :: _ => is_digit c
  | [] => false
  end.

Fixpoint skip_digits (s : str) : str :=
  match s with
  | [] => []
  | c :: tl => if is_digit c then skip_digits tl else s
  end.

(** The longest prefix made of digits and of dots that are followed by a
    digit, and what is left after it. *)
Fixpoint take_version (s : str) : str :=
  match s with
  | [] => []
  | c :: tl =>
      if is_digit c then c :: take_version tl
      else if is_char "."%char c && starts_with_digit tl
           then c :: take_version tl
           else []
  end.

Fixpoint drop_version (s : str) : str :=
  match s with
  | [] => []
  | c :: tl =>
      if is_digit c then drop_version tl
      else if is_char "."%char c && starts_with_digit tl
           then drop_version tl
           else s
  end.

Fixpoint get_version_scan (tag : str) : option str :=
  match tag with
  | [] => None
  | c :: tl =>
      if space_or_v c && starts_with_digit tl then Some (take_version tl)
      else get_version_scan tl
  end.

(** A dotted version text: every part between dots is a non-empty run of
    digits. *)
Definition dotted (v : str) : bool := forallb all_digits (split_dot v).

(** A place where the pattern can start: a whitespace or v, then a digit. *)
Definition candidate (s : str) : Prop :=
  exists pre c d post,
    s = pre ++ c :: d :: post /\ space_or_v c = true /\ is_digit d = true.

(** ** Numeric comparison as the specification words it

    Versions are compared component by component as integers, the
    shorter one padded on the right with zeros. *)

(** The integer components of a dotted text. *)
Definition components (v : str) : list N := map int (split_dot v).

Definition component (l : list N) (i : nat) : N := nth i l 0%N.

Definition numeric_eq (a b : list N) : Prop :=
  forall i, component a i = component b i.

Definition numeric_lt (a b : list N) : Prop :=
  exists i, (forall j, j < i -> component a j = component b j)
            /\ (component a i < component b i)%N.

(** The test of the baseline filter on texts that parse. *)
Definition newer_than (baseline : str) (r : Release) : bool :=
  version_gtb (MkVersion (components (version r)))
              (MkVersion (components baseline)).

(** ** What the tracked-file functions establish *)



(** [file] matches in [fs] and its group 1 holds the text [v]. *)
Definition captures (fs : store) (file : str * regex) (v : str) : Prop :=
  exists contents m,
    fs (fst file) = Some contents
    /\ search (snd file) contents = Some m
    /\ group1 m = Ok (Some v).

(** The versions the loop of [files_version] has met: the one it holds
    and those still to come. *)
Definition seen (acc : option str) (vs : list str) : list str :=
  match acc with
  | Some a => a :: vs
  | None => vs
  end.

(** The commands of one [create_version_commit], in order. *)
Definition commit_commands (config : Config) (version : str)
    : list command :=
  map git_add (map fst (files config))
  ++ (if truthy (Some (git_user_email config))
      then [git_config_user_email (git_user_email config)] else [])
  ++ (if truthy (Some (git_user_name config))
      then [git_config_user_name (git_user_name config)] else [])
  ++ [git_commit (source_repo_name config) version; git_tag version;
      git_push].



(** ** Sample data used in the examples *)

Definition rd_of_tag (t : str) : release_dict := MkReleaseDict t [] [] [].

Definition release_with (v : str) : Release := MkRelease v [] [] [] [].

Definition build_with (v : str) : DockerBuild := MkDockerBuild v [] 10.

(** A store given by its files. *)
Definition store_of (l : list (str * str)) : store :=
  fun f =>
    match find (fun p => str_eqb (fst p) f) l with
    | Some p => Some (snd p)
    | None => None
    end.

(** A pattern for a line such as VERSION=1.0.0: the literal text up to
    the equals sign, then group 1, any run of digits and dots. *)
Definition version_line_re : regex :=
  Cat (Lit (lit "VERSION="))
      (Group (Star (Cls (fun c => is_digit c || is_char "."%char c)))).

Definition sample_config : Config :=
  MkConfig (lit "github") (lit "app") (lit "dockerhub")
           [(lit "Dockerfile", version_line_re)] [] [].

(** A shell in which every [git push] fails with exit code 1. *)
Definition push_fails (c : command) (fs : store) (env : unit) : unit * Z :=
  match c with
  | git_push => (tt, 256%Z)
  | _ => (tt, 0%Z)
  end.

(** The three tests that an entry of the build history must pass in
    [get_builds] to reach the assignment. *)
Definition kept (bd : build_dict) : bool :=
  negb (str_in (bd_dockertag_name bd) IGNORE_TAGS)
  && truthy (get_version (bd_dockertag_name bd))
  && negb (bd_status bd <? 0)%Z.

(** ** Notions used in the proofs *)

(** [st'] is reachable from [st]: some prefix was read, the index moved
    by its length, and group 1 is untouched or lies in the part read. *)
Definition reaches (st st' : mstate) : Prop :=
  (exists pre, rest st = pre ++ rest st' /\ pos st' = pos st + length pre)
  /\ (cap st' = cap st
      \/ exists a b, cap st' = Some (a, b)
                     /\ pos st <= a /\ a <= b /\ b <= pos st').

(** The parts of the pattern of [get_version]. *)
Definition digit_re : regex := Cls is_digit.
Definition group_re : regex := Cat (Cls (is_char "."%char)) (Plus digit_re).

(** The state after reading up to the suffix [s']. *)
Definition advance (st : mstate) (s' : str) : mstate :=
  MState s' (pos st + (length (rest st) - length s')) (cap st).

Definition body_re : regex := Cat (Plus digit_re) (Star group_re).

(** Python's [<=] on the sort keys. *)
Definition key_le {A : Type} (key : A -> str) (x y : A) : Prop :=
  str_leb (key x) (key y) = true.

(** [rd] is the last entry of [l] whose tag yields the version [k]. *)
Definition last_with (l : list release_dict) (k : str) (rd : release_dict)
    : Prop :=
  exists pre post,
    l = pre ++ rd :: post
    /\ get_version (rd_tag_name rd) = Some k
    /\ forall rd', In rd' post -> get_version (rd_tag_name rd') <> Some k.

(** No entry of [l] has a tag that yields the version [k]. *)
Definition none_with (l : list release_dict) (k : str) : Prop :=
  forall rd, In rd l -> get_version (rd_tag_name rd) <> Some k.

(** A tuple without its trailing zeros. *)
Definition strip (l : list N) : list N := rev (dropwhile (N.eqb 0) (rev l)).

(** No trailing zero. *)
Definition ntz (l : list N) : Prop := last l 1%N <> 0%N.

(** ** Command lines and addresses

    [shlex.quote] is modelled as the library defines it: the empty text
    becomes two single quotes, a text of safe characters only is returned
    as it is, any other text is wrapped in single quotes with every
    single quote inside replaced by the five characters that close the
    quoting, give a quote between double quotes, and open it again. *)

(** The double quote character. *)
Definition dq : ascii := "034"%char.

(** The characters that need no quoting: letters, digits, underscore
    and the nine marks at, percent, plus, equals, colon, comma, full
    stop, slash and hyphen. *)
Definition is_safe (c : ascii) : bool :=
  let n := code c in
  ((48 <=? n) && (n <=? 57))
  || ((65 <=? n) && (n <=? 90))
  || ((97 <=? n) && (n <=? 122))
  || (n =? 95) || (n =? 64) || (n =? 37) || (n =? 43) || (n =? 61)
  || (n =? 58) || ((44 <=? n) && (n <=? 47)).

Fixpoint replace_quotes (s : str) : str :=
  match s with
  | [] => []
  | c :: tl =>
      if is_char "'"%char c
      then "'"%char :: dq :: "'"%char :: dq :: "'"%char :: replace_quotes tl
      else c :: replace_quotes tl
  end.

(** [shlex.quote] *)
Definition quote (s : str) : str :=
  match s with
  | [] => lit "''"
  | _ :: _ =>
      if forallb is_safe s then s
      else "'"%char :: replace_quotes s ++ ["'"%char]
  end.

(** The text that [create_version_commit] hands to [os.system] for each
    command. *)
Definition command_line (c : command) : str :=
  match c with
  | git_add filename => lit "git add " ++ dq :: quote filename ++ [dq]
  | git_config_user_email email =>
      lit "git config user.email " ++ dq :: quote email ++ [dq]
  | git_config_user_name user =>
      lit "git config user.name " ++ dq :: quote user ++ [dq]
  | git_commit service_name version =>
      lit "git commit -m " ++ dq :: lit "Bumped " ++ quote service_name
      ++ lit " version to " ++ quote version ++ [dq]
  | git_tag version =>
      lit "git tag -a " ++ dq :: "v"%char :: quote version ++ dq
      :: lit " -m " ++ dq :: lit "Release for version " ++ quote version
      ++ [dq]
  | git_push => lit "git push"
  end.

(** [GithubRepo.releases_url] *)
Definition releases_url (username repo_name : str) : str :=
  lit "https://api.github.com/repos/" ++ username ++ "/"%char :: repo_name
  ++ lit "/releases".

(** [DockerhubRepo.builds_url] *)
Definition builds_url (username repo_name : str) : str :=
  lit "https://hub.docker.com/v2/repositories/" ++ username
  ++ "/"%char :: repo_name ++ lit "/buildhistory/".

(** The text starts with a character that needs no quoting. *)
Definition starts_with_safe (x : str) : bool :=
  match x with
  | c :: _ => is_safe c
  | [] => false
  end.

(** [x] starts with the characters of [p]. *)
Fixpoint starts_with (p x : str) : bool :=
  match p, x with
  | [], _ => true
  | _ :: _, [] => false
  | c :: p', d :: x' => is_char c d && starts_with p' x'
  end.

(** The text starts with the four characters that follow a single quote
    inside a quoted word: double quote, single quote, double quote,
    single quote. *)
Definition continues (x : str) : bool :=
  starts_with [dq; "'"%char; dq; "'"%char] x.

(** A text that can follow a quoted word without being taken for a part
    of it: it does not start with a safe character, nor with the four
    characters that continue a quoted word after a single quote. *)
Definition closes (x : str) : Prop :=
  starts_with_safe x = false /\ continues x = false.

(** ** Further notions used in the statements *)

(** The tag of a listing entry yields a version. *)
Definition has_version (rd : release_dict) : bool :=
  truthy (get_version (rd_tag_name rd)).

(** Python's [<] on the sort keys. *)
Definition key_lt {A : Type} (key : A -> str) (x y : A) : Prop :=
  str_ltb (key x) (key y) = true.

(** The two tests of [reconcile] on texts that parse, in one. *)
Definition outstanding (baseline : str) (builds : list DockerBuild)
    (r : Release) : bool :=
  newer_than baseline r && negb (str_in (version r) (build_versions builds)).

(** * Properties *)

(** ** The matcher: what a run may change *)

Module ReFacts.

Lemma reaches_refl st : reaches st st.
Proof.
  split; [exists []; simpl; split; [reflexivity | lia] | left; reflexivity].
Qed.

Lemma reaches_trans st1 st2 st3 :
  reaches st1 st2 -> reaches st2 st3 -> reaches st1 st3.
Proof.
  intros [[p1 [E1 P1]] C1] [[p2 [E2 P2]] C2]. split.
  - exists (p1 ++ p2). rewrite E1, E2, <- app_assoc, length_app.
    split; [reflexivity | lia].
  - destruct C2 as [C2 | (a & b & C2 & Ha & Hab & Hb)].
    + rewrite C2. destruct C1 as [C1 | (a & b & C1 & Ha & Hab & Hb)].
      * left; assumption.
      * right. exists a, b. repeat split; try assumption; lia.
    + right. exists a, b. repeat split; try assumption; lia.
Qed.

Lemma star_loop_reaches body :
  (forall st st', In st' (body st) -> reaches st st') ->
  forall fuel st st', In st' (star_loop body fuel st) -> reaches st st'.
Proof.
  intros Hb. induction fuel as [| f IH]; intros st st' Hin; simpl in Hin.
  - destruct Hin as [<- | []]. apply reaches_refl.
  - apply in_app_or in Hin. destruct Hin as [Hin | [<- | []]].
    + apply in_flat_map in Hin. destruct Hin as (mid & Hmid & Hin).
      destruct (length (rest mid) <? length (rest st)).
      * eapply reaches_trans; [apply Hb; eassumption | apply IH; assumption].
      * destruct Hin as [<- | []]. apply Hb; assumption.
    + apply reaches_refl.
Qed.

Lemma run_reaches r :
  forall st st', In st' (run r st) -> reaches st st'.
Proof.
  induction r as [| p | r1 IH1 r2 IH2 | r1 IH1 r2 IH2 | r IH | r IH];
    intros st st' Hin; cbn [run] in Hin.
  - destruct Hin as [<- | []]. apply reaches_refl.
  - destruct (rest st) as [| c tl] eqn:E; [destruct Hin |].
    destruct (p c); [| destruct Hin]. destruct Hin as [<- | []].
    split; simpl.
    + exists [c]. rewrite E. simpl. split; [reflexivity | lia].
    + left; reflexivity.
  - apply in_flat_map in Hin. destruct Hin as (mid & Hmid & Hin).
    eapply reaches_trans; [apply IH1 | apply IH2]; eassumption.
  - apply in_app_or in Hin. destruct Hin; [apply IH1 | apply IH2]; assumption.
  - eapply star_loop_reaches; eassumption.
  - apply in_map_iff in Hin. destruct Hin as (mid & <- & Hmid).
    destruct (IH _ _ Hmid) as [[pre [E P]] _]. split; simpl.
    + exists pre. split; assumption.
    + right. exists (pos st), (pos mid). repeat split; lia.
Qed.

Lemma search_from_reaches r :
  forall s i st, search_from r s i = Some st ->
    exists k, k <= length s
              /\ reaches (MState (skipn k s) (i + k) None) st.
Proof.
  induction s as [| c tl IH]; intros i st H; simpl in H.
  - destruct (run r (MState [] i None)) as [| m l] eqn:E; [discriminate |].
    injection H as <-. exists 0. split; [lia |]. rewrite Nat.add_0_r.
    apply run_reaches with (r := r). simpl. rewrite E. left; reflexivity.
  - destruct (run r (MState (c :: tl) i None)) as [| m l] eqn:E.
    + apply IH in H. destruct H as (k & Hk & Hr). exists (S k).
      split; [simpl; lia |]. simpl. replace (i + S k) with (S i + k) by lia.
      assumption.
    + injection H as <-. exists 0. split; [lia |]. rewrite Nat.add_0_r.
      apply run_reaches with (r := r). simpl. rewrite E. left; reflexivity.
Qed.

(** The span of group 1 lies inside the searched string. *)
Lemma search_span r s m :
  search r s = Some m ->
  m_string m = s /\ m_groups m = groups r
  /\ forall a b, m_span1 m = Some (a, b) -> a <= b /\ b <= length s.
Proof.
  unfold search. destruct (search_from r s 0) as [st |] eqn:E; [| discriminate].
  intros H; injection H as <-. simpl. repeat split; try reflexivity.
  - apply search_from_reaches in E.
    destruct E as (k & Hk & [[pre [E P]] [C | (a' & b' & C & Ha & Hab & Hb)]]);
      simpl in *; [congruence |].
    rewrite C in H. injection H as -> ->. assumption.
  - apply search_from_reaches in E.
    destruct E as (k & Hk & [[pre [E P]] [C | (a' & b' & C & Ha & Hab & Hb)]]);
      simpl in *; [congruence |].
    rewrite C in H. injection H as -> ->.
    assert (L : length (skipn k s) = length pre + length (rest st))
      by (rewrite E, length_app; reflexivity).
    rewrite length_skipn in L. lia.
Qed.

(** The match found starts at the leftmost index where the pattern can
    match, and is the best run from there. *)
Lemma search_from_leftmost r :
  forall s i st, search_from r s i = Some st ->
    exists k, k <= length s
              /\ hd_error (run r (MState (skipn k s) (i + k) None)) = Some st
              /\ forall j, j < k ->
                   run r (MState (skipn j s) (i + j) None) = [].
Proof.
  induction s as [| c tl IH]; intros i st H; cbn [search_from] in H.
  - destruct (run r (MState [] i None)) as [| m l] eqn:E; [discriminate |].
    injection H as <-. exists 0. rewrite Nat.add_0_r. cbn [skipn].
    rewrite E. repeat split; [lia |]. intros j Hj. lia.
  - destruct (run r (MState (c :: tl) i None)) as [| m l] eqn:E.
    + apply IH in H. destruct H as (k & Hk & Hh & Hl). exists (S k).
      replace (i + S k) with (S i + k) by lia. cbn [skipn length].
      repeat split; [lia | exact Hh |].
      intros [| j] Hj; cbn [skipn].
      * rewrite Nat.add_0_r. exact E.
      * replace (i + S j) with (S i + j) by lia. apply Hl. lia.
    + injection H as <-. exists 0. rewrite Nat.add_0_r. cbn [skipn].
      rewrite E. repeat split; [cbn [length]; lia |]. intros j Hj. lia.
Qed.

End ReFacts.

(** ** The version pattern: the matcher agrees with the direct scan *)

Module VersionRe.

Lemma skip_digits_length s : length (skip_digits s) <= length s.
Proof.
  induction s as [| c tl IH]; simpl; [lia |].
  destruct (is_digit c); simpl; lia.
Qed.

Lemma skip_digits_stop s : starts_with_digit (skip_digits s) = false.
Proof.
  induction s as [| c tl IH]; simpl; [reflexivity |].
  destruct (is_digit c) eqn:E; [assumption | simpl; assumption].
Qed.

Lemma drop_version_length s : length (drop_version s) <= length s.
Proof.
  induction s as [| c tl IH]; simpl; [lia |].
  destruct (is_digit c); [lia |].
  destruct (is_char "." c && starts_with_digit tl); simpl; lia.
Qed.

Lemma drop_skip_digits s : drop_version (skip_digits s) = drop_version s.
Proof.
  induction s as [| c tl IH]; simpl; [reflexivity |].
  destruct (is_digit c) eqn:E; [assumption |]. simpl. rewrite E. reflexivity.
Qed.

Lemma take_drop s : take_version s ++ drop_version s = s.
Proof.
  induction s as [| c tl IH]; simpl; [reflexivity |].
  destruct (is_digit c); [simpl; rewrite IH; reflexivity |].
  destruct (is_char "." c && starts_with_digit tl); simpl;
    [rewrite IH |]; reflexivity.
Qed.

Lemma star_loop_nonempty body fuel st : star_loop body fuel st <> [].
Proof.
  destruct fuel; simpl; [discriminate |].
  intros H. apply app_eq_nil in H. destruct H as [_ H]. discriminate.
Qed.

Lemma hd_flat_map {A B : Type} (f : A -> list B) x l :
  f x <> [] -> hd_error (flat_map f (x :: l)) = hd_error (f x).
Proof.
  intros H. simpl. destruct (f x); [contradiction | reflexivity].
Qed.

Lemma hd_app {A : Type} (l1 l2 : list A) :
  l1 <> [] -> hd_error (l1 ++ l2) = hd_error l1.
Proof. destruct l1; [contradiction | reflexivity]. Qed.

Lemma advance_eq st s' st' :
  rest st' = s' -> pos st' = pos st + (length (rest st) - length s') ->
  cap st' = cap st -> Some st' = Some (advance st s').
Proof.
  destruct st' as [s1 i1 c1]. simpl. intros -> -> ->. reflexivity.
Qed.

Lemma star_loop_step body f st x l :
  body st = x :: l -> length (rest x) < length (rest st) ->
  hd_error (star_loop body (S f) st) = hd_error (star_loop body f x).
Proof.
  intros E Hlt. cbn [star_loop]. rewrite E. cbn [flat_map].
  apply Nat.ltb_lt in Hlt. rewrite Hlt.
  rewrite <- app_assoc. apply hd_app, star_loop_nonempty.
Qed.

Lemma star_loop_stop body f st :
  body st = [] -> star_loop body f st = [st].
Proof. intros E. destruct f; cbn [star_loop]; [| rewrite E]; reflexivity. Qed.

Lemma run_cls p st :
  run (Cls p) st
  = match rest st with
    | c :: tl => if p c then [MState tl (S (pos st)) (cap st)] else []
    | [] => []
    end.
Proof. reflexivity. Qed.

Lemma run_cat r1 r2 st : run (Cat r1 r2) st = flat_map (run r2) (run r1 st).
Proof. reflexivity. Qed.

Lemma run_star r st :
  run (Star r) st = star_loop (run r) (S (length (rest st))) st.
Proof. reflexivity. Qed.

Ltac adv := apply advance_eq; unfold advance; cbn [rest pos cap length] in *; lia || reflexivity.

(** Greedy [\d*]: the best run reads every leading digit. *)
Lemma star_digits fuel :
  forall st, length (rest st) <= fuel ->
    hd_error (star_loop (run digit_re) fuel st)
    = Some (advance st (skip_digits (rest st))).
Proof.
  induction fuel as [| f IH]; intros [s i c] Hlen; cbn [rest] in *.
  - destruct s; [| simpl in Hlen; lia]. adv.
  - destruct s as [| d tl].
    + rewrite star_loop_stop by reflexivity. adv.
    + cbn [skip_digits]. destruct (is_digit d) eqn:E.
      * rewrite star_loop_step with (x := MState tl (S i) c) (l := []).
        -- rewrite IH by (cbn [rest length] in *; lia). cbn [rest].
           pose proof (skip_digits_length tl). adv.
        -- unfold digit_re. rewrite run_cls. cbn [rest]. rewrite E. reflexivity.
        -- cbn [rest length]. lia.
      * rewrite star_loop_stop.
        -- adv.
        -- unfold digit_re. rewrite run_cls. cbn [rest]. rewrite E. reflexivity.
Qed.

(** [\d+] *)
Lemma plus_digits st :
  hd_error (run (Plus digit_re) st)
  = if starts_with_digit (rest st)
    then Some (advance st (skip_digits (rest st))) else None.
Proof.
  destruct st as [s i c]. unfold Plus. rewrite run_cat.
  unfold digit_re at 2. rewrite run_cls. cbn [rest pos cap].
  destruct s as [| d tl]; [reflexivity |]. cbn [starts_with_digit skip_digits].
  destruct (is_digit d) eqn:E; [| reflexivity].
  cbn [flat_map]. rewrite app_nil_r, run_star.
  rewrite star_digits by lia. cbn [rest].
  pose proof (skip_digits_length tl). adv.
Qed.

Lemma group_re_run st :
  hd_error (run group_re st)
  = match rest st with
    | c :: tl =>
        if is_char "."%char c && starts_with_digit tl
        then Some (advance st (skip_digits tl)) else None
    | [] => None
    end.
Proof.
  destruct st as [s i cp]. unfold group_re. rewrite run_cat, run_cls.
  cbn [rest pos cap]. destruct s as [| c tl]; [reflexivity |].
  destruct (is_char "." c); [| reflexivity].
  cbn [andb flat_map]. rewrite app_nil_r, plus_digits. cbn [rest].
  destruct (starts_with_digit tl); [| reflexivity].
  pose proof (skip_digits_length tl). adv.
Qed.

Lemma hd_none_nil {A : Type} (l : list A) : hd_error l = None -> l = [].
Proof. destruct l; [reflexivity | discriminate]. Qed.

(** Greedy [(?:\.\d+)*], started where no digit follows. *)
Lemma star_groups fuel :
  forall st, length (rest st) <= fuel ->
    starts_with_digit (rest st) = false ->
    hd_error (star_loop (run group_re) fuel st)
    = Some (advance st (drop_version (rest st))).
Proof.
  induction fuel as [| f IH]; intros [s i cp] Hlen Hnd; cbn [rest] in *.
  - destruct s; [| simpl in Hlen; lia]. adv.
  - pose proof (group_re_run (MState s i cp)) as G. cbn [rest] in G.
    destruct s as [| c tl].
    + rewrite star_loop_stop by (apply hd_none_nil; assumption). adv.
    + cbn [starts_with_digit] in Hnd. cbn [drop_version]. rewrite Hnd.
      destruct (is_char "." c && starts_with_digit tl) eqn:E.
      * destruct (run group_re (MState (c :: tl) i cp)) as [| x l] eqn:R;
          [discriminate |].
        cbn [hd_error] in G.
        assert (X : x = advance (MState (c :: tl) i cp) (skip_digits tl))
          by congruence.
        pose proof (skip_digits_length tl) as L1.
        pose proof (drop_version_length (skip_digits tl)) as L2.
        rewrite star_loop_step with (x := x) (l := l); [| assumption |].
        -- rewrite IH.
           ++ subst x. cbn [advance rest pos cap]. rewrite drop_skip_digits.
              rewrite drop_skip_digits in L2. adv.
           ++ subst x. cbn [advance rest length] in *. lia.
           ++ subst x. cbn [advance rest]. apply skip_digits_stop.
        -- subst x. cbn [advance rest length]. lia.
      * rewrite star_loop_stop by (apply hd_none_nil; assumption). adv.
Qed.

(** [\d+(?:\.\d+)*] *)
Lemma body_re_run st :
  hd_error (run body_re st)
  = if starts_with_digit (rest st)
    then Some (advance st (drop_version (rest st))) else None.
Proof.
  unfold body_re. rewrite run_cat. pose proof (plus_digits st) as P.
  destruct (starts_with_digit (rest st)).
  - destruct (run (Plus digit_re) st) as [| x l]; [discriminate |].
    cbn [hd_error] in P.
    assert (X : x = advance st (skip_digits (rest st))) by congruence.
    rewrite hd_flat_map by (rewrite run_star; apply star_loop_nonempty).
    rewrite run_star, star_groups; [| lia |].
    + subst x. cbn [advance rest].
      pose proof (drop_version_length (skip_digits (rest st))).
      rewrite drop_skip_digits in *.
      pose proof (skip_digits_length (rest st)).
      destruct st as [s i c]. adv.
    + subst x. cbn [advance rest]. apply skip_digits_stop.
  - apply hd_none_nil in P. rewrite P. reflexivity.
Qed.

Lemma run_group r st :
  run (Group r) st
  = map (fun st' => MState (rest st') (pos st') (Some (pos st, pos st')))
        (run r st).
Proof. reflexivity. Qed.

Lemma version_re_eq : version_re = Cat (Cls space_or_v) (Group body_re).
Proof. reflexivity. Qed.

Lemma version_re_run s i :
  hd_error (run version_re (MState s i None))
  = match s with
    | c :: tl =>
        if space_or_v c && starts_with_digit tl
        then let e := S i + (length tl - length (drop_version tl)) in
             Some (MState (drop_version tl) e (Some (S i, e)))
        else None
    | [] => None
    end.
Proof.
  rewrite version_re_eq, run_cat, run_cls. cbn [rest pos cap].
  destruct s as [| c tl]; [reflexivity |].
  destruct (space_or_v c); [| reflexivity].
  cbn [andb flat_map]. rewrite app_nil_r, run_group. cbn [pos].
  pose proof (body_re_run (MState tl (S i) None)) as B. cbn [rest] in B.
  destruct (run body_re (MState tl (S i) None)) as [| x l].
  - destruct (starts_with_digit tl); [discriminate | reflexivity].
  - cbn [hd_error map] in *. destruct (starts_with_digit tl); [| discriminate].
    injection B as ->. reflexivity.
Qed.

Lemma take_version_length s :
  length (take_version s) = length s - length (drop_version s).
Proof.
  pose proof (take_drop s) as E. apply (f_equal (@length ascii)) in E.
  rewrite length_app in E. lia.
Qed.

Lemma slice_middle (pre : str) c v post :
  slice (pre ++ c :: v ++ post) (S (length pre)) (S (length pre) + length v)
  = v.
Proof.
  unfold slice. replace (S (length pre) + length v - S (length pre))
    with (length v) by lia.
  replace (pre ++ c :: v ++ post) with ((pre ++ [c]) ++ v ++ post)
    by (rewrite <- app_assoc; reflexivity).
  rewrite skipn_app. replace (S (length pre)) with (length (pre ++ [c]))
    by (rewrite length_app; simpl; lia).
  rewrite skipn_all, Nat.sub_diag. simpl.
  rewrite firstn_app, Nat.sub_diag, firstn_all. simpl. apply app_nil_r.
Qed.

Lemma search_version_scan :
  forall s pre,
    match search_from version_re s (length pre) with
    | Some st =>
        match cap st with
        | Some (a, b) => Some (slice (pre ++ s) a b)
        | None => None
        end
    | None => None
    end = get_version_scan s.
Proof.
  induction s as [| c tl IH]; intros pre.
  - reflexivity.
  - cbn [search_from get_version_scan].
    pose proof (version_re_run (c :: tl) (length pre)) as V.
    cbv beta iota zeta in V.
    destruct (space_or_v c && starts_with_digit tl).
    + destruct (run version_re (MState (c :: tl) (length pre) None))
        as [| x l]; [discriminate |].
      cbn [hd_error] in V. injection V as V. subst x. cbn [cap]. f_equal.
      rewrite <- (take_drop tl) at 1. rewrite <- take_version_length.
      apply slice_middle.
    + apply hd_none_nil in V. rewrite V.
      specialize (IH (pre ++ [c])). rewrite length_app in IH.
      cbn [length] in IH. rewrite Nat.add_1_r, <- app_assoc in IH. exact IH.
Qed.

(** [get_version] is the direct scan. *)
Lemma get_version_is_scan tag : get_version tag = get_version_scan tag.
Proof.
  rewrite <- (search_version_scan tag []).
  unfold get_version, search. cbn [length app].
  destruct (search_from version_re tag 0) as [st |]; [| reflexivity].
  unfold group1, span1. cbn [m_groups m_span1 m_string].
  destruct (cap st) as [[a b] |]; reflexivity.
Qed.

Lemma all_digits_cons c p :
  is_digit c = true -> (p = [] \/ all_digits p = true) ->
  all_digits (c :: p) = true.
Proof.
  intros Hc [-> | Hp]; simpl; rewrite Hc; [reflexivity |].
  destruct p; [discriminate | exact Hp].
Qed.

Lemma digit_not_dot c : is_digit c = true -> is_char "."%char c = false.
Proof.
  unfold is_digit, is_char. intros H. apply andb_prop in H.
  destruct H as [H _]. apply Nat.leb_le in H. apply Nat.eqb_neq.
  change (code ".") with 46. lia.
Qed.

Lemma take_version_dotted n :
  forall s, length s <= n -> starts_with_digit s = true ->
    dotted (take_version s) = true.
Proof.
  induction n as [| n IH]; intros s Hlen Hd.
  - destruct s; [discriminate | simpl in Hlen; lia].
  - destruct s as [| c tl]; [discriminate |]. cbn [starts_with_digit] in Hd.
    cbn [take_version length] in *. rewrite Hd. unfold dotted.
    cbn [split_dot]. rewrite (digit_not_dot _ Hd).
    destruct tl as [| d tl'].
    + simpl. rewrite Hd. reflexivity.
    + cbn [take_version]. destruct (is_digit d) eqn:Ed.
      * assert (D : dotted (take_version (d :: tl')) = true)
          by (apply IH; [simpl in *; lia | exact Ed]).
        cbn [take_version] in D. rewrite Ed in D. unfold dotted in D.
        destruct (split_dot (d :: take_version tl')) as [| p ps];
          [simpl; rewrite Hd; reflexivity |].
        cbn [forallb] in *. apply andb_prop in D. destruct D as [D1 D2].
        rewrite D2, all_digits_cons; auto.
      * destruct (is_char "." d && starts_with_digit tl') eqn:Ec.
        -- apply andb_prop in Ec. destruct Ec as [Ec Es].
           cbn [split_dot]. rewrite Ec. cbn [forallb].
           rewrite all_digits_cons by auto.
           apply IH; [simpl in *; lia | exact Es].
        -- simpl. rewrite Hd. reflexivity.
Qed.

(** The match cannot be extended: what follows it is neither a digit nor
    a dot with a digit behind it. *)
Lemma drop_version_stop s :
  starts_with_digit (drop_version s) = false
  /\ forall c tl, drop_version s = c :: tl ->
       is_char "."%char c = true -> starts_with_digit tl = false.
Proof.
  induction s as [| c tl IH]; cbn [drop_version].
  - split; [reflexivity | discriminate].
  - destruct (is_digit c) eqn:Ed; [exact IH |].
    destruct (is_char "." c && starts_with_digit tl) eqn:Ec; [exact IH |].
    split; [exact Ed |]. intros c' tl' E Hc. injection E as <- <-.
    rewrite Hc in Ec. exact Ec.
Qed.

Lemma scan_none s : get_version_scan s = None <-> ~ candidate s.
Proof.
  induction s as [| c tl IH]; cbn [get_version_scan].
  - split; [| reflexivity]. intros _ (pre & x & d & post & E & _).
    destruct pre; discriminate.
  - destruct (space_or_v c && starts_with_digit tl) eqn:Ec.
    + split; [discriminate |]. intros H. exfalso. apply H.
      apply andb_prop in Ec. destruct Ec as [Ec Es].
      destruct tl as [| d tl']; [discriminate |].
      exists [], c, d, tl'. repeat split; assumption.
    + rewrite IH. split; intros H (pre & x & d & post & E & Hx & Hd); apply H.
      * destruct pre as [| y pre]; simpl in E; injection E as -> ->.
        -- simpl in Ec. rewrite Hx, Hd in Ec. discriminate.
        -- exists pre, x, d, post. repeat split; assumption.
      * exists (c :: pre), x, d, post. subst tl. repeat split; assumption.
Qed.

Lemma scan_some s v :
  get_version_scan s = Some v ->
  exists pre c post,
    s = pre ++ c :: v ++ post
    /\ space_or_v c = true
    /\ dotted v = true
    /\ ~ candidate (pre ++ [c])
    /\ starts_with_digit post = false
    /\ (forall x post', post = x :: post' -> is_char "."%char x = true ->
          starts_with_digit post' = false).
Proof.
  induction s as [| c tl IH]; cbn [get_version_scan]; [discriminate |].
  destruct (space_or_v c && starts_with_digit tl) eqn:Ec.
  - intros E; injection E as <-. apply andb_prop in Ec.
    destruct Ec as [Ec Es]. exists [], c, (drop_version tl).
    destruct (drop_version_stop tl) as [S1 S2].
    rewrite take_drop. repeat split; try assumption.
    + apply take_version_dotted with (n := length tl); [lia | exact Es].
    + intros (pre & x & d & post & E & _).
      destruct pre as [| ? [| ? ?]]; discriminate.
  - intros H. destruct (IH H) as (pre & x & post & E & Hx & Hv & Hn & S1 & S2).
    exists (c :: pre), x, post. subst tl. repeat split; try assumption.
    intros (p & y & d & q & E & Hy & Hd).
    destruct p as [| z p]; simpl in E; injection E as -> E.
    + assert (Hs : starts_with_digit (pre ++ x :: v ++ post) = true).
      { destruct pre as [| e pre]; simpl in E; injection E as -> _;
          simpl; exact Hd. }
      rewrite Hy, Hs in Ec. discriminate.
    + apply Hn. exists p, y, d, q. repeat split; assumption.
Qed.
End VersionRe.

(** ** Containers *)

Module Containers.

Lemma str_eqb_eq a b : str_eqb a b = true <-> a = b.
Proof.
  unfold str_eqb. destruct (str_eq_dec a b); split; congruence.
Qed.

Lemma str_eqb_neq a b : str_eqb a b = false <-> a <> b.
Proof.
  unfold str_eqb. destruct (str_eq_dec a b); split; congruence.
Qed.

Lemma str_in_In x l : str_in x l = true <-> In x l.
Proof.
  unfold str_in. rewrite existsb_exists. split.
  - intros (y & Hy & E). apply str_eqb_eq in E. subst. assumption.
  - intros H. exists x. split; [assumption | apply str_eqb_eq; reflexivity].
Qed.

Section Dict.
Variable V : Type.
Implicit Types (d : dict V) (k : str) (v : V).

Lemma dict_set_keys d k v :
  map fst (dict_set d k v)
  = if str_in k (map fst d) then map fst d else map fst d ++ [k].
Proof.
  induction d as [| [k' v'] tl IH]; [reflexivity |].
  cbn [dict_set map fst str_in existsb]. fold (str_in k (map fst tl)).
  destruct (str_eqb k' k) eqn:E.
  - apply str_eqb_eq in E. subst k'.
    replace (str_eqb k k) with true by (symmetry; apply str_eqb_eq; reflexivity).
    reflexivity.
  - replace (str_eqb k k') with false
      by (symmetry; apply str_eqb_neq; apply str_eqb_neq in E; congruence).
    cbn [map fst orb]. rewrite IH. destruct (str_in k (map fst tl)); reflexivity.
Qed.

Lemma dict_set_NoDup d k v :
  NoDup (map fst d) -> NoDup (map fst (dict_set d k v)).
Proof.
  intros H. rewrite dict_set_keys. destruct (str_in k (map fst d)) eqn:E.
  - assumption.
  - apply NoDup_app; [assumption | repeat constructor; intros [] |].
    intros x Hx [<- | []]. apply str_in_In in Hx. congruence.
Qed.

(** With distinct keys, assigning to [k] leaves exactly one item for [k],
    the new one, and every other item as it was. *)
Lemma dict_set_In d k v k' v' :
  NoDup (map fst d) ->
  In (k', v') (dict_set d k v)
  <-> (k' = k /\ v' = v) \/ (k' <> k /\ In (k', v') d).
Proof.
  induction d as [| [k0 v0] tl IH]; intros ND; cbn [dict_set].
  - split.
    + intros [E | []]. injection E as <- <-. left; split; reflexivity.
    + intros [[-> ->] | [_ []]]. left; reflexivity.
  - cbn [map fst] in ND. apply NoDup_cons_iff in ND. destruct ND as [N1 N2].
    destruct (str_eqb k0 k) eqn:E.
    + apply str_eqb_eq in E. subst k0. split.
      * intros [H | H]; [injection H as <- <-; left; split; reflexivity |].
        right. split; [| right; assumption].
        intros ->. apply N1. change k with (fst (k, v')). apply in_map, H.
      * intros [[-> ->] | [Hn [H | H]]]; [left; reflexivity | | right; assumption].
        injection H as <- _. congruence.
    + apply str_eqb_neq in E. split.
      * intros [H | H].
        -- injection H as <- <-. right. split; [assumption | left; reflexivity].
        -- apply IH in H; [| assumption].
           destruct H as [H | [Hn H]]; [left; assumption |].
           right. split; [assumption | right; assumption].
      * intros [[-> ->] | [Hn [H | H]]].
        -- right. apply IH; [assumption | left; split; reflexivity].
        -- left; assumption.
        -- right. apply IH; [assumption | right; split; assumption].
Qed.

End Dict.

Section Sorted.
Variable A : Type.
Variable key : A -> str.

Lemma insert_by_perm x l : Permutation (insert_by key x l) (x :: l).
Proof.
  induction l as [| y tl IH]; cbn [insert_by]; [reflexivity |].
  destruct (str_ltb (key y) (key x)); [| reflexivity].
  rewrite IH. apply perm_swap.
Qed.

Lemma sorted_perm l : Permutation (sorted key l) l.
Proof.
  induction l as [| x tl IH]; cbn [sorted fold_right]; [reflexivity |].
  fold (sorted key tl). rewrite insert_by_perm, IH. reflexivity.
Qed.

Lemma sorted_In x l : In x (sorted key l) <-> In x l.
Proof.
  split; apply Permutation_in; [| symmetry]; apply sorted_perm.
Qed.

Lemma str_ltb_asym a : forall b, str_ltb a b = true -> str_ltb b a = false.
Proof.
  induction a as [| x a IH]; intros [| y b] H; simpl in *;
    try reflexivity; try discriminate.
  destruct (code x <? code y) eqn:E1.
  - apply Nat.ltb_lt in E1.
    replace (code y <? code x) with false
      by (symmetry; apply Nat.ltb_ge; lia).
    reflexivity.
  - destruct (code y <? code x); [discriminate |]. apply IH; assumption.
Qed.

Lemma insert_by_sorted x l :
  Sorted (key_le key) l -> Sorted (key_le key) (insert_by key x l).
Proof.
  induction 1 as [| y tl Hs IH Hhd]; cbn [insert_by].
  - repeat constructor.
  - destruct (str_ltb (key y) (key x)) eqn:E.
    + constructor; [assumption |].
      destruct tl as [| z tl]; cbn [insert_by].
      * constructor. unfold key_le, str_leb.
        rewrite (str_ltb_asym _ _ E). reflexivity.
      * destruct (str_ltb (key z) (key x)).
        -- inversion Hhd; subst. constructor; assumption.
        -- constructor. unfold key_le, str_leb.
           rewrite (str_ltb_asym _ _ E). reflexivity.
    + repeat constructor; try assumption.
      unfold key_le, str_leb. rewrite E. reflexivity.
Qed.

(** [sorted] orders by Python's [<=] on the [str] keys. *)
Lemma sorted_Sorted l : Sorted (key_le key) (sorted key l).
Proof.
  induction l as [| x tl IH]; cbn [sorted fold_right]; [constructor |].
  apply insert_by_sorted, IH.
Qed.

End Sorted.

End Containers.

(** ** [get_releases] *)

Module Releases.
Import VersionRe Containers.

Lemma dotted_nonempty v : dotted v = true -> v <> [].
Proof. intros H ->. discriminate. Qed.

(** A version that [get_version] returns is a dotted text, so it is
    never empty and [parse_version] accepts it. *)
Lemma get_version_dotted t v : get_version t = Some v -> dotted v = true.
Proof.
  rewrite get_version_is_scan. intros H.
  destruct (scan_some _ H) as (pre & c & post & _ & _ & D & _). exact D.
Qed.

Lemma get_version_truthy t v : get_version t = Some v -> truthy (Some v) = true.
Proof.
  intros H. apply get_version_dotted, dotted_nonempty in H.
  destruct v; [contradiction | reflexivity].
Qed.

Lemma add_release_eq d rd :
  add_release d rd
  = match get_version (rd_tag_name rd) with
    | Some v => dict_set d v (release_of v rd)
    | None => d
    end.
Proof.
  unfold add_release.
  destruct (get_version (rd_tag_name rd)) as [v |] eqn:E; [| reflexivity].
  rewrite (get_version_truthy _ E). reflexivity.
Qed.

Lemma last_with_cons rd0 l k rd :
  last_with (rd0 :: l) k rd
  <-> last_with l k rd
      \/ (rd = rd0 /\ get_version (rd_tag_name rd0) = Some k /\ none_with l k).
Proof.
  split.
  - intros (pre & post & E & Hk & Hn). destruct pre as [| x pre]; simpl in E.
    + injection E as <- <-. right. repeat split; assumption.
    + injection E as <- ->. left. exists pre, post. repeat split; assumption.
  - intros [(pre & post & -> & Hk & Hn) | (-> & Hk & Hn)].
    + exists (rd0 :: pre), post. repeat split; assumption.
    + exists [], l. repeat split; assumption.
Qed.

Lemma last_with_none l k rd : last_with l k rd -> ~ none_with l k.
Proof.
  intros (pre & post & -> & Hk & _) H. apply (H rd); [| assumption].
  apply in_or_app. right; left; reflexivity.
Qed.

Lemma fold_add_release l :
  forall d, NoDup (map fst d) ->
    NoDup (map fst (fold_left add_release l d))
    /\ forall k r,
         In (k, r) (fold_left add_release l d)
         <-> (exists rd, last_with l k rd /\ r = release_of k rd)
             \/ (In (k, r) d /\ none_with l k).
Proof.
  induction l as [| rd0 tl IH]; intros d ND; cbn [fold_left].
  - split; [assumption |]. intros k r. split.
    + intros H. right. split; [assumption | intros ? []].
    + intros [(rd & (pre & post & E & _) & _) | [H _]]; [| assumption].
      destruct pre; discriminate.
  - assert (ND1 : NoDup (map fst (add_release d rd0))).
    { rewrite add_release_eq. destruct (get_version (rd_tag_name rd0));
        [apply dict_set_NoDup |]; assumption. }
    destruct (IH _ ND1) as [N I]. split; [assumption |].
    intros k r. rewrite I. clear I N IH. split.
    + intros [(rd & L & ->) | [H Hn]].
      * left. exists rd. split; [| reflexivity].
        apply last_with_cons. left; assumption.
      * rewrite add_release_eq in H.
        destruct (get_version (rd_tag_name rd0)) as [v |] eqn:E.
        -- apply dict_set_In in H; [| assumption].
           destruct H as [[-> ->] | [Hne H]].
           ++ left. exists rd0. split; [| reflexivity].
              apply last_with_cons. right. repeat split; assumption.
           ++ right. split; [assumption |].
              intros rd [<- | H']; [congruence | apply Hn; assumption].
        -- right. split; [assumption |].
           intros rd [<- | H']; [congruence | apply Hn; assumption].
    + intros [(rd & L & ->) | [H Hn]].
      * apply last_with_cons in L. destruct L as [L | (-> & Hk & Hn)].
        -- left. exists rd. split; [assumption | reflexivity].
        -- right. split; [| assumption]. rewrite add_release_eq, Hk.
           apply dict_set_In; [assumption |]. left; split; reflexivity.
      * right. split; [| intros rd Hrd; apply Hn; right; assumption].
        rewrite add_release_eq.
        destruct (get_version (rd_tag_name rd0)) as [v |] eqn:E;
          [| assumption].
        apply dict_set_In; [assumption |]. right. split; [| assumption].
        intros ->. apply (Hn rd0); [left; reflexivity | assumption].
Qed.

Lemma releases_dict_wf l k r :
  In (k, r) (fold_left add_release l []) -> version r = k.
Proof.
  intros H. destruct (@fold_add_release l [] (NoDup_nil _)) as [_ I].
  apply I in H.
  destruct H as [(rd & _ & ->) | [[] _]]. reflexivity.
Qed.

Lemma values_keys (d : dict Release) :
  (forall k r, In (k, r) d -> version r = k) ->
  map version (dict_values d) = map fst d.
Proof.
  unfold dict_values. induction d as [| [k r] tl IH]; intros H;
    [reflexivity |].
  cbn [map fst snd]. rewrite (H k r) by (left; reflexivity).
  rewrite IH; [reflexivity |]. intros k' r' Hin. apply H. right; assumption.
Qed.
End Releases.

(** ** Version extraction *)

Import VersionRe.

(** The pattern has a group 1, so reading it from a match never raises. *)
Lemma version_re_group_present tag m :
  search version_re tag = Some m -> exists v, group1 m = Ok v.
Proof.
  intros H. destruct (ReFacts.search_span _ _ H) as (_ & G & _).
  unfold group1, span1. rewrite G. cbn.
  destruct (m_span1 m) as [[a b] |]; eexists; reflexivity.
Qed.

(** C3, as the code has it.  [get_version] returns group 1 of the
    leftmost match of: one whitespace character or the letter v, then one
    or more dot-separated digit groups, taken as far as they go.  It
    returns [None] exactly when no whitespace-or-v character of the label
    is directly followed by a digit.  So "v1.4.2" gives "1.4.2", "release"
    gives nothing, "Build 3" gives "3" and "Release 2.0" gives "2.0",
    while a label that starts with the digits themselves ("2", "1.4.2")
    gives nothing: the pattern needs the character before the digits. *)
Theorem get_version_leftmost_prefixed (tag : str) :
  (get_version tag = None <-> ~ candidate tag)
  /\ (forall v, get_version tag = Some v ->
        exists pre c post,
          tag = pre ++ c :: v ++ post
          /\ space_or_v c = true
          /\ dotted v = true
          /\ ~ candidate (pre ++ [c])
          /\ starts_with_digit post = false
          /\ (forall x post', post = x :: post' ->
                is_char "."%char x = true ->
                starts_with_digit post' = false))
  /\ get_version (lit "v1.4.2") = Some (lit "1.4.2")
  /\ get_version (lit "release") = None
  /\ get_version (lit "Build 3") = Some (lit "3")
  /\ get_version (lit "Release 2.0") = Some (lit "2.0")
  /\ get_version (lit "2") = None
  /\ get_version (lit "1.4.2") = None.
Proof.
  rewrite get_version_is_scan. split; [apply scan_none |].
  split; [intros v; apply scan_some |].
  repeat split; vm_compute; reflexivity.
Qed.

Lemma get_version_leftmost_prefixed_witness :
  exists pre c post,
    lit "tag v1.4.2-rc" = pre ++ c :: lit "1.4.2" ++ post
    /\ space_or_v c = true
    /\ dotted (lit "1.4.2") = true
    /\ ~ candidate (pre ++ [c])
    /\ starts_with_digit post = false
    /\ (forall x post', post = x :: post' ->
          is_char "."%char x = true -> starts_with_digit post' = false).
Proof.
  apply (proj1 (proj2 (get_version_leftmost_prefixed (lit "tag v1.4.2-rc")))).
  vm_compute. reflexivity.
Defined.

(** C3 as written fails: a bare version at the start of the label is not
    matched. *)
Lemma get_version_bare_version_not_matched :
  get_version (lit "2") <> Some (lit "2")
  /\ get_version (lit "1.4.2") <> Some (lit "1.4.2").
Proof. split; vm_compute; discriminate. Qed.

(** ** The releases listing *)

Import Containers Releases.

(** C10.  [get_releases] returns at most one release per extracted
    version: the versions of its output are pairwise distinct, and a
    release is in the output exactly when it was built from the last
    entry, among the first [top] entries (five in [main]), whose tag
    yields its version.  The function is total: nothing is raised. *)
Theorem get_releases_last_entry_wins (top : nat)
    (releases_dict : list release_dict) :
  NoDup (map version (get_releases top releases_dict))
  /\ forall r,
       In r (get_releases top releases_dict)
       <-> exists rd, last_with (firstn top releases_dict) (version r) rd
                      /\ r = release_of (version r) rd.
Proof.
  unfold get_releases.
  set (d := fold_left add_release (firstn top releases_dict) []).
  destruct (@fold_add_release (firstn top releases_dict) [] (NoDup_nil _))
    as [ND I]. fold d in ND, I.
  assert (WF : forall k r, In (k, r) d -> version r = k)
    by (intros k r; apply releases_dict_wf).
  split.
  - eapply Permutation_NoDup.
    + apply Permutation_map. symmetry. apply sorted_perm.
    + rewrite (values_keys _ WF). exact ND.
  - intros r. rewrite sorted_In. unfold dict_values. rewrite in_map_iff. split.
    + intros ([k r'] & E & H). simpl in E. subst r'.
      pose proof (WF _ _ H) as Ek. subst k. apply I in H.
      destruct H as [H | [[] _]]. exact H.
    + intros (rd & L & E). exists (version r, r). split; [reflexivity |].
      apply I. left. exists rd. split; assumption.
Qed.

(** ** Version comparison *)

Module Versions.

Lemma component_nil i : component [] i = 0%N.
Proof. unfold component. destruct i; reflexivity. Qed.

Lemma component_app_zero l i : component (l ++ [0%N]) i = component l i.
Proof.
  unfold component. revert i. induction l as [| x tl IH]; intros [| i]; simpl;
    try reflexivity.
  - destruct i; reflexivity.
  - apply IH.
Qed.

Lemma strip_snoc l x :
  strip (l ++ [x]) = if (0 =? x)%N then strip l else l ++ [x].
Proof.
  unfold strip. rewrite rev_app_distr. cbn [rev app dropwhile].
  destruct (0 =? x)%N; [reflexivity |].
  cbn [rev]. rewrite rev_involutive. reflexivity.
Qed.

Lemma strip_component l : forall i, component (strip l) i = component l i.
Proof.
  induction l as [| x l IH] using rev_ind; intros i; [reflexivity |].
  rewrite strip_snoc. destruct (0 =? x)%N eqn:E; [| reflexivity].
  apply N.eqb_eq in E. subst x. rewrite component_app_zero. apply IH.
Qed.

Lemma strip_ntz l : ntz (strip l).
Proof.
  unfold ntz. induction l as [| x l IH] using rev_ind; [discriminate |].
  rewrite strip_snoc. destruct (0 =? x)%N eqn:E; [assumption |].
  rewrite last_last. apply N.eqb_neq in E. congruence.
Qed.

Lemma ntz_tail x l : ntz (x :: l) -> ntz l.
Proof. unfold ntz. destruct l; [discriminate | exact (fun H => H)]. Qed.

Lemma ntz_positive l :
  l <> [] -> ntz l ->
  exists i, (forall j, j < i -> component l j = 0%N)
            /\ (0 < component l i)%N.
Proof.
  induction l as [| x tl IH]; intros Hne Hz; [contradiction |].
  destruct (N.eq_dec x 0) as [-> | Hx].
  - destruct tl as [| y tl]; [exfalso; apply Hz; reflexivity |].
    destruct IH as (i & Hlt & Hi); [discriminate | exact (ntz_tail Hz) |].
    exists (S i). split; [| exact Hi].
    intros [| j] Hj; [reflexivity | apply Hlt; lia].
  - exists 0. split; [intros j Hj; lia |]. unfold component. simpl. lia.
Qed.

Lemma numeric_lt_cons x a b :
  numeric_lt (x :: a) (x :: b) <-> numeric_lt a b.
Proof.
  split.
  - intros (i & Hlt & Hi). destruct i as [| i].
    + unfold component in Hi. simpl in Hi. lia.
    + exists i. split; [| exact Hi]. intros j Hj. apply (Hlt (S j)). lia.
  - intros (i & Hlt & Hi). exists (S i). split; [| exact Hi].
    intros [| j] Hj; [reflexivity | apply Hlt; lia].
Qed.

Lemma tuple_ltb_numeric a :
  forall b, ntz a -> ntz b -> (tuple_ltb a b = true <-> numeric_lt a b).
Proof.
  induction a as [| x a IH]; intros [| y b] Ha Hb; cbn [tuple_ltb].
  - split; [discriminate |]. intros (i & _ & Hi).
    rewrite component_nil in Hi. lia.
  - split; [| reflexivity]. intros _.
    destruct (@ntz_positive (y :: b)) as (i & Hlt & Hi);
      [discriminate | assumption |].
    exists i. split.
    + intros j Hj. rewrite component_nil, Hlt by assumption. reflexivity.
    + rewrite component_nil. exact Hi.
  - split; [discriminate |]. intros (i & _ & Hi).
    rewrite component_nil in Hi. lia.
  - destruct (x <? y)%N eqn:E1.
    + split; [| reflexivity]. intros _. exists 0.
      split; [intros j Hj; lia |]. apply N.ltb_lt in E1. exact E1.
    + apply N.ltb_ge in E1. destruct (y <? x)%N eqn:E2.
      * apply N.ltb_lt in E2. split; [discriminate |].
        intros (i & Hlt & Hi). destruct i as [| i].
        -- unfold component in Hi. simpl in Hi. lia.
        -- specialize (Hlt 0 (Nat.lt_0_succ _)). unfold component in Hlt.
           simpl in Hlt. lia.
      * apply N.ltb_ge in E2. assert (x = y) by lia. subst y.
        rewrite numeric_lt_cons. apply IH; eapply ntz_tail; eassumption.
Qed.

Lemma ntz_numeric_eq a :
  forall b, ntz a -> ntz b -> numeric_eq a b -> a = b.
Proof.
  assert (Z : forall l, l <> [] -> ntz l -> ~ numeric_eq [] l).
  { intros l Hne Hz H. destruct (ntz_positive Hne Hz) as (i & _ & Hi).
    rewrite <- (H i), component_nil in Hi. lia. }
  induction a as [| x a IH]; intros [| y b] Ha Hb H.
  - reflexivity.
  - exfalso. apply (Z (y :: b)); [discriminate | assumption | assumption].
  - exfalso. apply (Z (x :: a)); [discriminate | assumption |].
    intros i. symmetry. apply H.
  - pose proof (H 0) as H0. unfold component in H0. simpl in H0. subst y.
    f_equal. apply IH; try (eapply ntz_tail; eassumption).
    intros i. apply (H (S i)).
Qed.

(** [>] on parsed versions is the padded componentwise order. *)
Lemma version_gtb_numeric a b :
  version_gtb a b = true <-> numeric_lt (release b) (release a).
Proof.
  unfold version_gtb, cmpkey. fold (strip (release a)) (strip (release b)).
  rewrite tuple_ltb_numeric by apply strip_ntz.
  unfold numeric_lt. setoid_rewrite strip_component. reflexivity.
Qed.

(** [==] on parsed versions is equality of the padded components. *)
Lemma version_eqb_numeric a b :
  version_eqb a b = true <-> numeric_eq (release a) (release b).
Proof.
  unfold version_eqb, tuple_eqb, cmpkey.
  fold (strip (release a)) (strip (release b)).
  destruct (list_eq_dec N.eq_dec (strip (release a)) (strip (release b)))
    as [E | NE].
  - split; [| reflexivity]. intros _ i.
    rewrite <- (strip_component (release a)), E. apply strip_component.
  - split; [discriminate |]. intros H. exfalso. apply NE.
    apply ntz_numeric_eq; try apply strip_ntz.
    intros i. rewrite !strip_component. apply H.
Qed.

Lemma parse_version_dotted s :
  dotted s = true -> parse_version (Some s) = Ok (MkVersion (components s)).
Proof. unfold parse_version, dotted. intros ->. reflexivity. Qed.

End Versions.

(** ** Reconciliation *)

Module Reconcile.
Import Containers Versions.

Lemma baseline_filter_dotted baseline releases :
  Forall (fun r => dotted (version r) = true) releases ->
  baseline_filter (MkVersion (components baseline)) releases
  = Ok (filter (newer_than baseline) releases).
Proof.
  induction 1 as [| r tl Hr Htl IH]; [reflexivity |].
  cbn [baseline_filter filter]. rewrite (parse_version_dotted _ Hr), IH.
  reflexivity.
Qed.

Lemma newer_than_numeric baseline r :
  newer_than baseline r = true
  <-> numeric_lt (components baseline) (components (version r)).
Proof. unfold newer_than. rewrite version_gtb_numeric. reflexivity. Qed.

Lemma exclude_built_In releases builds r :
  In r (exclude_built releases builds)
  <-> In r releases /\ ~ In (version r) (build_versions builds).
Proof.
  unfold exclude_built. rewrite filter_In, negb_true_iff.
  rewrite <- str_in_In. destruct (str_in (version r) (build_versions builds));
    intuition congruence.
Qed.

Lemma filter_nil_iff {A : Type} (f : A -> bool) l :
  filter f l = [] <-> forall x, In x l -> f x = false.
Proof.
  induction l as [| x tl IH]; cbn [filter].
  - split; [intros _ ? [] | reflexivity].
  - destruct (f x) eqn:E.
    + split; [discriminate |]. intros H.
      specialize (H x (or_introl eq_refl)). congruence.
    + rewrite IH. split.
      * intros H y [<- | Hy]; [assumption | apply H; assumption].
      * intros H y Hy. apply H. right; assumption.
Qed.

Lemma filter_idem {A : Type} (f : A -> bool) l :
  filter f (filter f l) = filter f l.
Proof.
  induction l as [| x tl IH]; [reflexivity |]. cbn [filter].
  destruct (f x) eqn:E; [cbn [filter]; rewrite E, IH |]; auto.
Qed.

End Reconcile.

Import Versions Reconcile.

(** C6.  With a baseline and release versions that are dotted texts, the
    baseline filter keeps, in their order, exactly the releases whose
    version is strictly greater than the baseline in the componentwise
    numeric order with zero padding; equal and lower versions are
    dropped. *)
Theorem baseline_filter_strictly_newer (baseline : str)
    (releases : list Release) :
  dotted baseline = true ->
  Forall (fun r => dotted (version r) = true) releases ->
  exists min_version,
    parse_version (Some baseline) = Ok min_version
    /\ baseline_filter min_version releases
       = Ok (filter (newer_than baseline) releases)
    /\ (forall r, newer_than baseline r = true
                  <-> numeric_lt (components baseline)
                                 (components (version r)))
    /\ (forall r, In r (filter (newer_than baseline) releases)
                  <-> In r releases
                      /\ numeric_lt (components baseline)
                                    (components (version r))).
Proof.
  intros Hb Hr. exists (MkVersion (components baseline)).
  split; [apply parse_version_dotted; assumption |].
  split; [apply baseline_filter_dotted; assumption |].
  split; [intros r; apply newer_than_numeric |].
  intros r. rewrite filter_In, newer_than_numeric. reflexivity.
Qed.

Lemma baseline_filter_strictly_newer_witness :
  exists min_version,
    parse_version (Some (lit "2.0.0")) = Ok min_version
    /\ baseline_filter min_version
         [release_with (lit "1.9.0"); release_with (lit "2.0.0");
          release_with (lit "2.0.1")]
       = Ok [release_with (lit "2.0.1")]
    /\ (forall r, newer_than (lit "2.0.0") r = true
                  <-> numeric_lt (components (lit "2.0.0"))
                                 (components (version r)))
    /\ (forall r, In r [release_with (lit "2.0.1")]
                  <-> In r [release_with (lit "1.9.0");
                            release_with (lit "2.0.0");
                            release_with (lit "2.0.1")]
                      /\ numeric_lt (components (lit "2.0.0"))
                                    (components (version r))).
Proof.
  apply (@baseline_filter_strictly_newer (lit "2.0.0")
           [release_with (lit "1.9.0"); release_with (lit "2.0.0");
            release_with (lit "2.0.1")]).
  - reflexivity.
  - repeat constructor.
Defined.

(** The baseline filter on the inputs of the specification's examples;
    "1.10" is above the baseline "1.9" although it is below it as text. *)
Example reconcile_baseline_2_0_0 :
  reconcile [release_with (lit "1.9.0"); release_with (lit "2.0.0");
             release_with (lit "2.0.1")] [] (Some (lit "2.0.0"))
  = Ok [release_with (lit "2.0.1")]
  /\ reconcile [release_with (lit "1.10")] [] (Some (lit "1.9"))
     = Ok [release_with (lit "1.10")]
  /\ str_ltb (lit "1.10") (lit "1.9") = true.
Proof. repeat split; vm_compute; reflexivity. Qed.

(** C7.  Build exclusion is complete and idempotent: a release survives
    exactly when its version is not among the build versions; when every
    release is built nothing survives; filtering again changes nothing;
    and [main] then returns normally with the world as it was. *)
Theorem exclude_built_complete_idempotent (releases : list Release)
    (builds : list DockerBuild) :
  (forall r, In r (exclude_built releases builds)
             <-> In r releases /\ ~ In (version r) (build_versions builds))
  /\ ((forall r, In r releases -> In (version r) (build_versions builds))
      -> exclude_built releases builds = [])
  /\ exclude_built (exclude_built releases builds) builds
     = exclude_built releases builds
  /\ exclude_built [release_with (lit "2.0.1"); release_with (lit "2.1.0")]
                   [build_with (lit "2.0.1")]
     = [release_with (lit "2.1.0")]
  /\ (forall (Env : Type) (os_system : command -> store -> Env -> Env * Z)
             (config : Config) (w : world Env) (baseline : str),
        files_version (w_files w) (files config) = Ok (Some baseline) ->
        dotted baseline = true ->
        Forall (fun r => dotted (version r) = true) releases ->
        (forall r, In r releases -> In (version r) (build_versions builds)) ->
        main_reconcile os_system config releases builds w = (w, Ok tt)).
Proof.
  split; [intros r; apply exclude_built_In |].
  assert (E : forall l, (forall r, In r l ->
                           In (version r) (build_versions builds)) ->
                        exclude_built l builds = []).
  { intros l H. apply filter_nil_iff. intros r Hr.
    apply negb_false_iff, str_in_In, H, Hr. }
  split; [apply E |]. split; [apply filter_idem |].
  split; [vm_compute; reflexivity |].
  intros Env os_system config w baseline Hf Hb Hd Hall.
  unfold main_reconcile, reconcile. rewrite Hf.
  rewrite (parse_version_dotted _ Hb), (baseline_filter_dotted _ Hd).
  rewrite E; [reflexivity |].
  intros r Hr. apply filter_In in Hr. apply Hall, Hr.
Qed.

Lemma exclude_built_complete_idempotent_witness :
  exclude_built [release_with (lit "2.0.1")] [build_with (lit "2.0.1")] = [].
Proof.
  apply (proj1 (proj2 (@exclude_built_complete_idempotent
                         [release_with (lit "2.0.1")]
                         [build_with (lit "2.0.1")]))).
  intros r [<- | []]. left. reflexivity.
Defined.

(** C4 as written fails: the release "2.0" is not taken as built when the
    builds hold "2.0.0" and "2.00". *)
Lemma exclude_built_keeps_2_0_beside_2_0_0 :
  In (release_with (lit "2.0"))
     (exclude_built [release_with (lit "2.0")]
                    [build_with (lit "2.0.0"); build_with (lit "2.00")]).
Proof. vm_compute. left. reflexivity. Qed.

(** C4, as the code has it.  Numeric-component equality, with zero
    padding and leading zeros ignored, is the equality of parsed versions
    and is what the baseline filter compares with: "1.01" equals "1.1"
    and "2.0" equals "2.0.0" and "2.00" there.  The build-exclusion step
    compares the version texts themselves: a release is dropped exactly
    when some build carries the same text. *)
Theorem version_equality_numeric_only_when_parsed :
  (forall a b, version_eqb a b = true <-> numeric_eq (release a) (release b))
  /\ (forall a b, version_gtb a b = true
                  <-> numeric_lt (release b) (release a))
  /\ (forall a b, dotted a = true -> dotted b = true ->
        exists va vb,
          parse_version (Some a) = Ok va /\ parse_version (Some b) = Ok vb
          /\ (version_eqb va vb = true
              <-> numeric_eq (components a) (components b)))
  /\ numeric_eq (components (lit "1.01")) (components (lit "1.1"))
  /\ numeric_eq (components (lit "2.0")) (components (lit "2.0.0"))
  /\ numeric_eq (components (lit "2.0")) (components (lit "2.00"))
  /\ (forall releases builds r,
        In r (exclude_built releases builds)
        <-> In r releases
            /\ forall b, In b builds -> build_version b <> version r).
Proof.
  split; [apply version_eqb_numeric |].
  split; [apply version_gtb_numeric |].
  split.
  { intros a b Ha Hb. exists (MkVersion (components a)),
      (MkVersion (components b)).
    split; [apply parse_version_dotted; assumption |].
    split; [apply parse_version_dotted; assumption |].
    apply version_eqb_numeric. }
  assert (V : forall a b, version_eqb (MkVersion (components a))
                            (MkVersion (components b)) = true ->
                          numeric_eq (components a) (components b))
    by (intros a b; apply version_eqb_numeric).
  split; [apply V; vm_compute; reflexivity |].
  split; [apply V; vm_compute; reflexivity |].
  split; [apply V; vm_compute; reflexivity |].
  intros releases builds r. rewrite exclude_built_In.
  unfold build_versions. rewrite in_map_iff. split.
  - intros [H N]. split; [assumption |]. intros b Hb E. apply N.
    exists b. split; assumption.
  - intros [H N]. split; [assumption |]. intros (b & E & Hb).
    apply (N b); assumption.
Qed.

Lemma version_equality_numeric_only_when_parsed_witness :
  exists va vb,
    parse_version (Some (lit "1.01")) = Ok va
    /\ parse_version (Some (lit "1.1")) = Ok vb
    /\ (version_eqb va vb = true
        <-> numeric_eq (components (lit "1.01")) (components (lit "1.1"))).
Proof.
  apply (proj1 (proj2 (proj2 version_equality_numeric_only_when_parsed))
           (lit "1.01") (lit "1.1")); reflexivity.
Defined.

(** ** Ordering of the listings *)

(** Every version in the output of [get_releases] is a dotted text, so
    the baseline filter can parse it. *)
Lemma get_releases_dotted top releases_dict :
  Forall (fun r => dotted (version r) = true)
         (get_releases top releases_dict).
Proof.
  apply Forall_forall. intros r H. unfold get_releases in H.
  apply sorted_In in H. unfold dict_values in H. apply in_map_iff in H.
  destruct H as ([k r'] & E & H). simpl in E. subst r'.
  destruct (@fold_add_release (firstn top releases_dict) [] (NoDup_nil _))
    as [_ I].
  apply I in H. destruct H as [(rd & (pre & post & _ & Hk & _) & ->) | [[] _]].
  simpl. eapply get_version_dotted. eassumption.
Qed.

(** What [get_releases] does guarantee: its output ascends in Python's
    order on [str], code point by code point. *)
Lemma get_releases_sorted_as_text top releases_dict :
  Sorted (key_le version) (get_releases top releases_dict).
Proof. apply sorted_Sorted. Qed.

(** C1 at a failing input.  For the tags "v1.9", "v1.10", "v2.0" the
    listing comes back as "1.10", "1.9", "2.0": the sort key is the
    version text, and as text "1.10" is below "1.9", while numerically
    1.9 is below 1.10. *)
Theorem get_releases_puts_1_10_before_1_9 :
  map version
      (get_releases 5 (map rd_of_tag [lit "v1.9"; lit "v1.10"; lit "v2.0"]))
  = [lit "1.10"; lit "1.9"; lit "2.0"]
  /\ numeric_lt (components (lit "1.9")) (components (lit "1.10")).
Proof.
  split; [vm_compute; reflexivity |].
  apply (newer_than_numeric (lit "1.9") (release_with (lit "1.10"))).
  vm_compute. reflexivity.
Qed.

(** ** The build history *)

Lemma get_builds_loop_outcome results :
  get_builds_loop results []
  = if existsb kept results then Raise (NameError "release_dict")
    else Ok [].
Proof.
  induction results as [| bd tl IH]; [reflexivity |].
  cbn [get_builds_loop existsb]. unfold kept at 1.
  destruct (str_in (bd_dockertag_name bd) IGNORE_TAGS); [exact IH |].
  destruct (truthy (get_version (bd_dockertag_name bd))); [| exact IH].
  destruct (bd_status bd <? 0)%Z; [exact IH | reflexivity].
Qed.

(** [get_builds] has two outcomes only: the empty list when every entry
    is skipped, and [NameError] as soon as one entry is kept. *)
Lemma get_builds_outcome results :
  get_builds results
  = if existsb kept results then Raise (NameError "release_dict")
    else Ok [].
Proof.
  unfold get_builds. rewrite get_builds_loop_outcome.
  destruct (existsb kept results); reflexivity.
Qed.

(** C2 at a failing input.  A build history with one successful build
    tagged "v1.0" makes [get_builds] raise [NameError] instead of
    returning the record of that build. *)
Theorem get_builds_raises_on_successful_build :
  get_builds [MkBuildDict (lit "v1.0") 10]
  = Raise (NameError "release_dict")
  /\ get_builds [MkBuildDict (lit "latest") 10; MkBuildDict (lit "v0.9") (-1);
                 MkBuildDict (lit "nightly") 10]
     = Ok [].
Proof. split; vm_compute; reflexivity. Qed.

(** ** Tracked files *)

Module Files.
Import ReFacts Containers.


Lemma write_other fs filename contents f :
  f <> filename -> write fs filename contents f = fs f.
Proof.
  intros H. unfold write. apply str_eqb_neq in H. rewrite H. reflexivity.
Qed.







(** [files_version] raises as soon as some file has no match. *)
Lemma files_version_unmatched fs files :
  (exists filename regex contents,
      In (filename, regex) files
      /\ fs filename = Some contents
      /\ search regex contents = None) ->
  forall acc, exists e, files_version_loop fs files acc = Raise e.
Proof.
  induction files as [| [f r] tl IH]; intros (filename & regex & contents & Hin & Hf & Hs) acc.
  - destruct Hin.
  - cbn [files_version_loop].
    destruct (fs f) as [c |] eqn:Ef; [| eexists; reflexivity].
    destruct (search r c) as [m |] eqn:Es.
    + destruct (group1 m) as [fv | e]; [| eexists; reflexivity].
      destruct (truthy acc && negb (opt_str_eqb acc fv));
        [eexists; reflexivity |].
      destruct Hin as [E | Hin].
      * injection E as -> ->. congruence.
      * apply IH. exists filename, regex, contents. repeat split; assumption.
    + eexists; reflexivity.
Qed.

(** When every file matches with a non-empty capture, the loop returns
    the common capture if all captures agree and raises on two different
    ones otherwise. *)
Lemma files_version_loop_nonempty fs files vs :
  Forall2 (captures fs) files vs ->
  Forall (fun v => v <> []) vs ->
  forall acc, Forall (fun v => v <> []) (seen acc []) ->
    (exists r, files_version_loop fs files acc = Ok r
               /\ (forall v, In v (seen acc vs) -> r = Some v)
               /\ (seen acc vs = [] -> r = None))
    \/ (exists x y, x <> y /\ In x (seen acc vs) /\ In y (seen acc vs)
                    /\ files_version_loop fs files acc
                       = Raise (ValueError_two_versions x (Some y))).
Proof.
  induction 1 as [| [f r] v tl vs' (contents & m & Hf & Hs & Hg) Hall IH];
    intros Hne acc Hacc.
  - left. exists acc. cbn [files_version_loop]. split; [reflexivity |].
    destruct acc as [a |]; cbn [seen].
    + split; [| discriminate]. intros v [<- | []]. reflexivity.
    + split; [intros v [] | reflexivity].
  - apply Forall_cons_iff in Hne. destruct Hne as [Hv Hne].
    cbn [fst snd] in Hf, Hs. cbn [files_version_loop]. rewrite Hf, Hs, Hg.
    assert (Next : Forall (fun v0 : str => v0 <> []) (seen (Some v) []))
      by (constructor; [exact Hv | constructor]).
    destruct acc as [a |]; cbn [seen truthy] in *.
    + apply Forall_cons_iff in Hacc. destruct Hacc as [Ha _].
      destruct a as [| a0 a']; [contradiction |]. cbn [andb opt_str_eqb].
      destruct (str_eqb (a0 :: a') v) eqn:E; cbn [negb].
      * apply str_eqb_eq in E. subst v.
        destruct (IH Hne (Some (a0 :: a')) Next)
          as [(r0 & E1 & E2 & E3) | (x & y & N & Hx & Hy & E1)];
          cbn [seen] in *.
        -- left. exists r0. split; [exact E1 |]. split; [| discriminate].
           intros v [<- | Hin]; apply E2; [left; reflexivity | exact Hin].
        -- right. exists x, y. repeat split; try assumption; right; assumption.
      * apply str_eqb_neq in E. right. exists (a0 :: a'), v.
        repeat split; [exact E | left; reflexivity | right; left; reflexivity].
    + destruct (IH Hne (Some v) Next)
        as [(r0 & E1 & E2 & E3) | (x & y & N & Hx & Hy & E1)];
        cbn [seen] in *.
      * left. exists r0. split; [exact E1 |]. split; [exact E2 | discriminate].
      * right. exists x, y. repeat split; assumption.
Qed.

(** On tracked files that all match with a non-empty capture,
    [files_version] returns the common version when the captures agree
    and raises the two-versions error when two of them differ. *)
Lemma files_version_nonempty fs files vs :
  Forall2 (captures fs) files vs ->
  Forall (fun v => v <> []) vs ->
  (files_version fs files = Ok (hd_error vs)
   /\ forall v v', In v vs -> In v' vs -> v = v')
  \/ (exists x y, x <> y /\ In x vs /\ In y vs
                  /\ files_version fs files
                     = Raise (ValueError_two_versions x (Some y))).
Proof.
  intros H Hne.
  destruct (@files_version_loop_nonempty fs files vs H Hne None)
    as [(r & E1 & E2 & E3) | R]; [constructor | | right; exact R].
  left. cbn [seen] in *. unfold files_version. rewrite E1. split.
  - destruct vs as [| v vs]; [rewrite E3; reflexivity |].
    rewrite (E2 v); [reflexivity | left; reflexivity].
  - intros v v' Hv Hv'. apply E2 in Hv, Hv'. congruence.
Qed.

End Files.

Import Files.



Example update_files_version_dockerfile :
  fst (update_files_version
         [(lit "Dockerfile", version_line_re)] (lit "1.0.1")
         (store_of [(lit "Dockerfile", lit "ENV VERSION=1.0.0 # app")]))
      (lit "Dockerfile")
  = Some (lit "ENV VERSION=1.0.1 # app").
Proof. vm_compute. reflexivity. Qed.

(** C8 at a failing input.  Two tracked files, the first with an empty
    capture and the second with "1.0.1": the captures differ, yet
    [files_version] returns "1.0.1" without an error, because the test
    before the comparison takes an empty earlier version for no version.
    With the captures "1.0.0" and "1.0.1" the error is raised. *)
Theorem files_version_accepts_empty_then_other :
  let fs := store_of [(lit "a", lit "VERSION=");
                      (lit "b", lit "VERSION=1.0.1");
                      (lit "c", lit "VERSION=1.0.0")] in
  captures fs (lit "a", version_line_re) []
  /\ captures fs (lit "b", version_line_re) (lit "1.0.1")
  /\ files_version fs [(lit "a", version_line_re); (lit "b", version_line_re)]
     = Ok (Some (lit "1.0.1"))
  /\ files_version fs [(lit "c", version_line_re); (lit "b", version_line_re)]
     = Raise (ValueError_two_versions (lit "1.0.0") (Some (lit "1.0.1"))).
Proof.
  cbv zeta. split; [| split; [| split]].
  - eexists _, _. cbn [fst snd]. repeat split; vm_compute; reflexivity.
  - eexists _, _. cbn [fst snd]. repeat split; vm_compute; reflexivity.
  - vm_compute. reflexivity.
  - vm_compute. reflexivity.
Qed.

(** ** Publishing *)

Module Publish.

Section Driver.
Variable Env : Type.
Variable os_system : command -> store -> Env -> Env * Z.
Variable config : Config.









End Driver.



End Publish.

Import Publish.




(** ** The whole program *)

(** A failure to read the baseline leaves [main] before any write and
    any command: the world is returned as it was. *)
Lemma main_reconcile_read_failure (Env : Type)
    (os_system : command -> store -> Env -> Env * Z) config releases builds
    (w : world Env) e :
  files_version (w_files w) (files config) = Raise e ->
  main_reconcile os_system config releases builds w = (w, Raise e).
Proof. unfold main_reconcile. intros ->. reflexivity. Qed.

(** One kept entry in the build history ends [main] with [NameError],
    before the baseline is read. *)
Lemma main_kept_build_raises (Env : Type)
    (os_system : command -> store -> Env -> Env * Z) config releases_dict
    results (w : world Env) :
  lower (source_provider config) = lit "github" ->
  lower (docker_provider config) = lit "dockerhub" ->
  existsb kept results = true ->
  main os_system config releases_dict results w
  = (w, Raise (NameError "release_dict")).
Proof.
  intros Hs Hd Hk. unfold main. rewrite Hs, Hd, get_builds_outcome, Hk.
  reflexivity.
Qed.

(** A run with an empty build history: the releases above the baseline
    are published one after the other, here in text order. *)
Example main_publishes_new_releases :
  let w := MkWorld (store_of [(lit "Dockerfile", lit "VERSION=1.8")]) tt [] in
  let run := main push_fails sample_config
               (map rd_of_tag [lit "v1.10"; lit "v1.9"; lit "v1.8"]) [] w in
  snd run = Ok tt
  /\ map fst (w_trace (fst run))
     = commit_commands sample_config (lit "1.10")
       ++ commit_commands sample_config (lit "1.9")
  /\ w_files (fst run) (lit "Dockerfile") = Some (lit "VERSION=1.9").
Proof. repeat split; vm_compute; reflexivity. Qed.

(** ** The order on texts *)

Module TextOrder.

Lemma code_inj x y : code x = code y -> x = y.
Proof.
  unfold code. intros H. rewrite <- (ascii_nat_embedding x),
    <- (ascii_nat_embedding y), H. reflexivity.
Qed.

Lemma str_ltb_trans a :
  forall b c, str_ltb a b = true -> str_ltb b c = true -> str_ltb a c = true.
Proof.
  induction a as [| x a IH]; intros [| y b] [| z c] H1 H2; simpl in *;
    try reflexivity; try discriminate.
  destruct (code x <? code y) eqn:E1.
  - apply Nat.ltb_lt in E1. destruct (code y <? code z) eqn:E2.
    + apply Nat.ltb_lt in E2.
      replace (code x <? code z) with true
        by (symmetry; apply Nat.ltb_lt; lia).
      reflexivity.
    + destruct (code z <? code y) eqn:E3; [discriminate |].
      apply Nat.ltb_ge in E2, E3.
      replace (code x <? code z) with true
        by (symmetry; apply Nat.ltb_lt; lia).
      reflexivity.
  - destruct (code y <? code x) eqn:E1'; [discriminate |].
    apply Nat.ltb_ge in E1, E1'. assert (Exy : code x = code y) by lia.
    rewrite Exy. destruct (code y <? code z); [reflexivity |].
    destruct (code z <? code y); [discriminate |].
    eapply IH; eassumption.
Qed.

Lemma str_ltb_total a :
  forall b, str_ltb a b = false -> str_ltb b a = false -> a = b.
Proof.
  induction a as [| x a IH]; intros [| y b] H1 H2; simpl in *;
    try reflexivity; try discriminate.
  destruct (code x <? code y) eqn:E1; [discriminate |].
  destruct (code y <? code x) eqn:E2; [discriminate |].
  apply Nat.ltb_ge in E1, E2. f_equal.
  - apply code_inj. lia.
  - apply IH; assumption.
Qed.

Lemma str_leb_trans a b c :
  str_leb a b = true -> str_leb b c = true -> str_leb a c = true.
Proof.
  unfold str_leb. rewrite !negb_true_iff. intros H1 H2.
  destruct (str_ltb c a) eqn:E; [| reflexivity].
  destruct (str_ltb a b) eqn:E3.
  - rewrite (str_ltb_trans _ _ _ E E3) in H2. discriminate.
  - assert (a = b) by (apply str_ltb_total; assumption). subst b.
    congruence.
Qed.

Lemma str_leb_neq_ltb a b :
  str_leb a b = true -> a <> b -> str_ltb a b = true.
Proof.
  unfold str_leb. rewrite negb_true_iff. intros H N.
  destruct (str_ltb a b) eqn:E; [reflexivity |].
  exfalso. apply N. apply str_ltb_total; assumption.
Qed.

Section Strict.
Variable A : Type.
Variable key : A -> str.

Lemma sorted_StronglySorted_le l : StronglySorted (key_le key) (sorted key l).
Proof.
  apply Sorted_StronglySorted; [| apply sorted_Sorted].
  intros x y z. unfold key_le. apply str_leb_trans.
Qed.

Lemma strongly_le_NoDup_lt l :
  StronglySorted (key_le key) l -> NoDup (map key l) ->
  StronglySorted (key_lt key) l.
Proof.
  induction 1 as [| x l Hs IH Hall]; intros ND; [constructor |].
  cbn [map] in ND. apply NoDup_cons_iff in ND. destruct ND as [N1 N2].
  constructor; [apply IH; assumption |].
  rewrite Forall_forall in *. intros y Hy. unfold key_lt.
  apply str_leb_neq_ltb; [apply Hall; assumption |].
  intros E. apply N1. rewrite E. apply in_map. assumption.
Qed.

End Strict.

End TextOrder.

(** ** More on the releases listing *)

Module ReleasesMore.
Import TextOrder.

Lemma dict_set_length {V : Type} (d : dict V) k v :
  length (dict_set d k v) <= S (length d).
Proof.
  induction d as [| [k' v'] tl IH]; cbn [dict_set length]; [lia |].
  destruct (str_eqb k' k); cbn [length]; lia.
Qed.

Lemma add_release_length d rd : length (add_release d rd) <= S (length d).
Proof.
  rewrite add_release_eq. destruct (get_version (rd_tag_name rd));
    [apply dict_set_length | lia].
Qed.

Lemma fold_add_release_length l :
  forall d, length (fold_left add_release l d) <= length d + length l.
Proof.
  induction l as [| rd tl IH]; intros d; cbn [fold_left length]; [lia |].
  specialize (IH (add_release d rd)).
  pose proof (add_release_length d rd). lia.
Qed.

Lemma sorted_length {A : Type} (key : A -> str) l :
  length (sorted key l) = length l.
Proof. apply Permutation_length, sorted_perm. Qed.

Lemma add_release_skip d rd : has_version rd = false -> add_release d rd = d.
Proof. unfold has_version, add_release. intros ->. reflexivity. Qed.

Lemma fold_add_release_filter l :
  forall d, fold_left add_release (filter has_version l) d
            = fold_left add_release l d.
Proof.
  induction l as [| rd tl IH]; intros d; cbn [filter fold_left];
    [reflexivity |].
  destruct (has_version rd) eqn:E; cbn [fold_left].
  - apply IH.
  - rewrite (add_release_skip _ _ E). apply IH.
Qed.

End ReleasesMore.

Import TextOrder ReleasesMore.

(** X1.  [get_releases] looks at the first [top] entries only and
    returns at most one release for each of them: its output is no longer
    than [top] and no longer than the listing, and entries after the
    first [top] do not change it. *)
Theorem get_releases_bounded_by_top (top : nat)
    (releases_dict more : list release_dict) :
  length (get_releases top releases_dict) <= top
  /\ length (get_releases top releases_dict) <= length releases_dict
  /\ (top <= length releases_dict ->
      get_releases top (releases_dict ++ more)
      = get_releases top releases_dict).
Proof.
  unfold get_releases. rewrite sorted_length. unfold dict_values.
  rewrite length_map.
  pose proof (fold_add_release_length (firstn top releases_dict) []) as L.
  rewrite length_firstn in L. cbn [length] in L.
  split; [lia |]. split; [lia |].
  intros H. rewrite firstn_app.
  replace (top - length releases_dict) with 0 by lia.
  cbn [firstn]. rewrite app_nil_r. reflexivity.
Qed.

Lemma get_releases_bounded_by_top_witness :
  get_releases 2 (map rd_of_tag [lit "v1.0"; lit "v1.1"]
                  ++ map rd_of_tag [lit "v1.2"])
  = get_releases 2 (map rd_of_tag [lit "v1.0"; lit "v1.1"]).
Proof.
  apply (proj2 (proj2 (get_releases_bounded_by_top 2
                         (map rd_of_tag [lit "v1.0"; lit "v1.1"])
                         (map rd_of_tag [lit "v1.2"])))).
  simpl. lia.
Defined.

(** X2.  The output of [get_releases] ascends strictly in Python's order
    on [str]: every release has a version text below that of every
    release after it. *)
Theorem get_releases_strictly_ascending_as_text (top : nat)
    (releases_dict : list release_dict) :
  StronglySorted (key_lt version) (get_releases top releases_dict).
Proof.
  unfold get_releases.
  set (d := fold_left add_release (firstn top releases_dict) []).
  apply strongly_le_NoDup_lt; [apply sorted_StronglySorted_le |].
  eapply Permutation_NoDup.
  - apply Permutation_map. symmetry. apply sorted_perm.
  - rewrite values_keys by (intros k r; apply releases_dict_wf).
    apply (@fold_add_release (firstn top releases_dict) [] (NoDup_nil _)).
Qed.

(** X3.  Entries whose tag yields no version contribute nothing: the
    listing without them gives the same releases. *)
Theorem get_releases_skips_unversioned (top : nat)
    (releases_dict : list release_dict) :
  let versioned := filter has_version (firstn top releases_dict) in
  get_releases top releases_dict = get_releases (length versioned) versioned.
Proof.
  cbv zeta. unfold get_releases. rewrite firstn_all.
  rewrite fold_add_release_filter. reflexivity.
Qed.

(** ** Dotted texts *)

Module Dotted.

Lemma split_dot_cons_digit c s :
  is_digit c = true ->
  split_dot (c :: s)
  = match split_dot s with
    | p :: ps => (c :: p) :: ps
    | [] => [[c]]
    end.
Proof. intros H. cbn [split_dot]. rewrite (digit_not_dot _ H). reflexivity. Qed.

Lemma split_dot_nonempty s : split_dot s <> [].
Proof.
  destruct s as [| c tl]; cbn [split_dot]; [discriminate |].
  destruct (is_char "." c); [discriminate |].
  destruct (split_dot tl); discriminate.
Qed.

(** A dotted text starts with a digit, and what follows the digit is
    nothing, a dotted text, or a dot and a dotted text. *)
Lemma dotted_inv c s :
  dotted (c :: s) = true ->
  is_digit c = true
  /\ (s = []
      \/ (starts_with_digit s = true /\ dotted s = true)
      \/ exists d s', s = d :: s' /\ is_char "."%char d = true
                      /\ dotted s' = true).
Proof.
  unfold dotted. cbn [split_dot]. destruct (is_char "." c) eqn:Ec.
  - cbn. discriminate.
  - destruct s as [| d s'].
    + cbn. rewrite andb_true_r, andb_true_r. intros H. split; [exact H |].
      left; reflexivity.
    + cbn [split_dot]. destruct (is_char "." d) eqn:Ed.
      * cbn [forallb all_digits]. intros H. apply andb_prop in H.
        destruct H as [H1 H2]. rewrite andb_true_r in H1.
        split; [exact H1 |]. right; right. exists d, s'.
        repeat split; assumption.
      * destruct (split_dot s') as [| p ps] eqn:Es.
        -- exfalso. eapply split_dot_nonempty; eassumption.
        -- cbn [forallb all_digits]. intros H. apply andb_prop in H.
           destruct H as [H1 H2]. apply andb_prop in H1.
           destruct H1 as [Hc H1]. apply andb_prop in H1.
           destruct H1 as [Hd Hp]. split; [exact Hc |]. right; left.
           split; [exact Hd |]. cbn [forallb]. rewrite Hd, Hp, H2.
           reflexivity.
Qed.

Lemma dotted_starts_with_digit v : dotted v = true -> starts_with_digit v = true.
Proof.
  destruct v as [| c s]; [discriminate |]. intros H.
  apply dotted_inv in H. apply H.
Qed.

Lemma dotted_chars v :
  dotted v = true ->
  Forall (fun c => is_digit c = true \/ is_char "."%char c = true) v.
Proof.
  remember (length v) as n eqn:En. revert v En.
  induction n as [n IH] using lt_wf_ind. intros v En H.
  destruct v as [| c s]; [constructor |].
  destruct (@dotted_inv _ _ H) as [Hc [-> | [[_ Hs] | (d & s' & -> & Hd & Hs)]]].
  - repeat constructor. exact Hc.
  - constructor; [left; exact Hc |].
    apply (IH (length s)); [subst n; cbn; lia | reflexivity | exact Hs].
  - constructor; [left; exact Hc |]. constructor; [right; exact Hd |].
    apply (IH (length s')); [subst n; cbn; lia | reflexivity | exact Hs].
Qed.

(** The scan takes the whole of a dotted text. *)
Lemma take_version_dotted_all v : dotted v = true -> take_version v = v.
Proof.
  remember (length v) as n eqn:En. revert v En.
  induction n as [n IH] using lt_wf_ind. intros v En H.
  destruct v as [| c s]; [reflexivity |].
  destruct (@dotted_inv _ _ H) as [Hc [-> | [[_ Hs] | (d & s' & -> & Hd & Hs)]]];
    cbn [take_version]; rewrite Hc.
  - reflexivity.
  - f_equal. apply (IH (length s)); [subst n; cbn; lia | reflexivity | exact Hs].
  - f_equal. cbn [take_version].
    destruct (is_digit d) eqn:Edd.
    + rewrite (digit_not_dot _ Edd) in Hd. discriminate.
    + rewrite Hd, (dotted_starts_with_digit _ Hs). cbn [andb]. f_equal.
      apply (IH (length s')); [subst n; cbn; lia | reflexivity | exact Hs].
Qed.

Lemma not_space_or_v c :
  is_digit c = true \/ is_char "."%char c = true -> space_or_v c = false.
Proof.
  destruct c as [b0 b1 b2 b3 b4 b5 b6 b7].
  destruct b0, b1, b2, b3, b4, b5, b6, b7; vm_compute;
    intros [H | H]; try reflexivity; discriminate H.
Qed.

Lemma scan_none_without_prefix v :
  Forall (fun c => space_or_v c = false) v -> get_version_scan v = None.
Proof.
  induction 1 as [| c s Hc Hs IH]; [reflexivity |].
  cbn [get_version_scan]. rewrite Hc. exact IH.
Qed.

End Dotted.

Import Dotted.

(** X4.  The tag that [create_version_commit] creates for a version,
    the letter v followed by the version, gives the version back through
    [get_version]; the version text alone, without the letter, gives
    nothing. *)
Theorem get_version_recovers_tagged_version (v : str) :
  dotted v = true ->
  get_version ("v"%char :: v) = Some v /\ get_version v = None.
Proof.
  intros H. rewrite !get_version_is_scan. split.
  - cbn [get_version_scan].
    replace (space_or_v "v") with true by reflexivity.
    rewrite (dotted_starts_with_digit _ H). cbn [andb].
    rewrite (take_version_dotted_all _ H). reflexivity.
  - apply scan_none_without_prefix. apply dotted_chars in H.
    rewrite Forall_forall in *. intros c Hc. apply not_space_or_v, H, Hc.
Qed.

Lemma get_version_recovers_tagged_version_witness :
  get_version ("v"%char :: lit "10.4.2") = Some (lit "10.4.2")
  /\ get_version (lit "10.4.2") = None.
Proof.
  apply (get_version_recovers_tagged_version (lit "10.4.2")). reflexivity.
Defined.

(** X5.  [get_builds] returns nothing but the empty list: it returns
    only when every entry is ignorable, without a version or failed, and
    it raises [NameError] as soon as one entry is none of these. *)
Theorem get_builds_returns_no_build (results : list build_dict) :
  (forall builds, get_builds results = Ok builds ->
     builds = []
     /\ forall bd, In bd results ->
          In (bd_dockertag_name bd) IGNORE_TAGS
          \/ get_version (bd_dockertag_name bd) = None
          \/ (bd_status bd < 0)%Z)
  /\ ((exists bd, In bd results
                  /\ ~ In (bd_dockertag_name bd) IGNORE_TAGS
                  /\ get_version (bd_dockertag_name bd) <> None
                  /\ (0 <= bd_status bd)%Z) ->
      get_builds results = Raise (NameError "release_dict")).
Proof.
  assert (K : forall bd, kept bd = false <->
              In (bd_dockertag_name bd) IGNORE_TAGS
              \/ get_version (bd_dockertag_name bd) = None
              \/ (bd_status bd < 0)%Z).
  { intros bd. unfold kept. rewrite !andb_false_iff, !negb_false_iff.
    rewrite str_in_In, Z.ltb_lt. split.
    - intros [[H | H] | H]; [left; exact H | | right; right; exact H].
      right; left. destruct (get_version (bd_dockertag_name bd)) eqn:E;
        [| reflexivity].
      rewrite (get_version_truthy _ E) in H. discriminate.
    - intros [H | [H | H]]; [left; left; exact H | | right; exact H].
      left; right. rewrite H. reflexivity. }
  rewrite get_builds_outcome. split.
  - intros builds H. destruct (existsb kept results) eqn:E; [discriminate |].
    injection H as <-. split; [reflexivity |]. intros bd Hin. apply K.
    destruct (kept bd) eqn:Ek; [| reflexivity].
    assert (X : existsb kept results = true)
      by (apply existsb_exists; exists bd; split; assumption).
    congruence.
  - intros (bd & Hin & H1 & H2 & H3).
    replace (existsb kept results) with true; [reflexivity |].
    symmetry. apply existsb_exists. exists bd. split; [exact Hin |].
    destruct (kept bd) eqn:Ek; [reflexivity |]. apply K in Ek.
    destruct Ek as [Ek | [Ek | Ek]]; [contradiction | contradiction | lia].
Qed.

Lemma get_builds_returns_no_build_witness :
  get_builds [MkBuildDict (lit "latest") 10; MkBuildDict (lit "v2.1") 0]
  = Raise (NameError "release_dict").
Proof.
  apply (proj2 (get_builds_returns_no_build
                  [MkBuildDict (lit "latest") 10; MkBuildDict (lit "v2.1") 0])).
  exists (MkBuildDict (lit "v2.1") 0). split; [right; left; reflexivity |].
  split; [| split].
  - intros [H | []]. discriminate H.
  - vm_compute. discriminate.
  - simpl. lia.
Defined.

(** ** More on the tracked files *)

Module FilesMore.

Lemma files_version_loop_ext fs1 fs2 files :
  (forall f, In f (map fst files) -> fs1 f = fs2 f) ->
  forall acc, files_version_loop fs1 files acc
              = files_version_loop fs2 files acc.
Proof.
  induction files as [| [f r] tl IH]; intros H acc; [reflexivity |].
  cbn [files_version_loop]. rewrite <- (H f) by (left; reflexivity).
  destruct (fs1 f) as [contents |]; [| reflexivity].
  destruct (search r contents) as [m |]; [| reflexivity].
  destruct (group1 m) as [fv | e]; [| reflexivity].
  destruct (truthy acc && negb (opt_str_eqb acc fv)); [reflexivity |].
  apply IH. intros f' Hf'. apply H. right; assumption.
Qed.

Lemma files_version_loop_app fs l1 :
  forall l2 acc,
    files_version_loop fs (l1 ++ l2) acc
    = match files_version_loop fs l1 acc with
      | Ok acc' => files_version_loop fs l2 acc'
      | Raise e => Raise e
      end.
Proof.
  induction l1 as [| [f r] tl IH]; intros l2 acc; [reflexivity |].
  cbn [app files_version_loop].
  destruct (fs f) as [contents |]; [| reflexivity].
  destruct (search r contents) as [m |]; [| reflexivity].
  destruct (group1 m) as [fv | e]; [| reflexivity].
  destruct (truthy acc && negb (opt_str_eqb acc fv)); [reflexivity |].
  apply IH.
Qed.

Lemma update_files_version_exists version files :
  forall fs f,
    fst (update_files_version files version fs) f = None <-> fs f = None.
Proof.
  induction files as [| [filename regex] tl IH]; intros fs f;
    cbn [update_files_version]; [reflexivity |].
  destruct (fs filename) as [contents |] eqn:Ef; [| reflexivity].
  destruct (search regex contents) as [m |]; [| reflexivity].
  destruct (span1 m) as [span | e]; [| reflexivity].
  rewrite IH. unfold write. destruct (str_eqb f filename) eqn:E.
  - apply str_eqb_eq in E. subst f. rewrite Ef. split; discriminate.
  - reflexivity.
Qed.

End FilesMore.

Import FilesMore.

(** X6.  When every tracked file matches with a non-empty capture,
    [files_version] returns that capture if all files agree, and raises
    the two-versions error, naming two captures that differ, if they do
    not. *)
Theorem files_version_agree_or_raise (fs : store)
    (files : list (str * regex)) (vs : list str) :
  Forall2 (captures fs) files vs ->
  Forall (fun v => v <> []) vs ->
  (files_version fs files = Ok (hd_error vs)
   /\ forall v v', In v vs -> In v' vs -> v = v')
  \/ (exists x y, x <> y /\ In x vs /\ In y vs
                  /\ files_version fs files
                     = Raise (ValueError_two_versions x (Some y))).
Proof. apply files_version_nonempty. Qed.

Lemma files_version_agree_or_raise_witness :
  let fs := store_of [(lit "Dockerfile", lit "ENV VERSION=1.2.0");
                      (lit "README", lit "VERSION=1.2.0 of app")] in
  let files := [(lit "Dockerfile", version_line_re);
                (lit "README", version_line_re)] in
  let vs := [lit "1.2.0"; lit "1.2.0"] in
  (files_version fs files = Ok (hd_error vs)
   /\ forall v v', In v vs -> In v' vs -> v = v')
  \/ (exists x y, x <> y /\ In x vs /\ In y vs
                  /\ files_version fs files
                     = Raise (ValueError_two_versions x (Some y))).
Proof.
  cbv zeta. apply files_version_agree_or_raise.
  - repeat constructor; eexists _, _; cbn [fst snd];
      repeat split; vm_compute; reflexivity.
  - repeat constructor; discriminate.
Defined.

(** X7.  [files_version] raises whenever some tracked file is there and
    its pattern finds no match in it, whatever the other files hold. *)
Theorem files_version_raises_on_unmatched_file (fs : store)
    (files : list (str * regex)) (filename : str) (regex : regex)
    (contents : str) :
  In (filename, regex) files ->
  fs filename = Some contents ->
  search regex contents = None ->
  exists e, files_version fs files = Raise e.
Proof.
  intros Hin Hf Hs. apply files_version_unmatched.
  exists filename, regex, contents. repeat split; assumption.
Qed.

Lemma files_version_raises_on_unmatched_file_witness :
  exists e,
    files_version
      (store_of [(lit "Dockerfile", lit "ENV VERSION=1.2.0");
                 (lit "README", lit "no version here")])
      [(lit "Dockerfile", version_line_re); (lit "README", version_line_re)]
    = Raise e.
Proof.
  apply (@files_version_raises_on_unmatched_file _ _ (lit "README")
           version_line_re (lit "no version here")).
  - right; left; reflexivity.
  - reflexivity.
  - vm_compute. reflexivity.
Defined.

(** X8.  [files_version] reads the tracked files only: two stores that
    hold the same text for every file of the mapping give the same
    result. *)
Theorem files_version_reads_tracked_files_only (fs1 fs2 : store)
    (files : list (str * regex)) :
  (forall f, In f (map fst files) -> fs1 f = fs2 f) ->
  files_version fs1 files = files_version fs2 files.
Proof. intros H. apply files_version_loop_ext. exact H. Qed.

Lemma files_version_reads_tracked_files_only_witness :
  files_version
    (store_of [(lit "Dockerfile", lit "VERSION=1.0"); (lit "notes", lit "a")])
    [(lit "Dockerfile", version_line_re)]
  = files_version
      (store_of [(lit "notes", lit "b"); (lit "Dockerfile", lit "VERSION=1.0")])
      [(lit "Dockerfile", version_line_re)].
Proof.
  apply files_version_reads_tracked_files_only.
  intros f [<- | []]. reflexivity.
Defined.

(** X9.  What [files_version] returns is what the last file of the
    mapping captures: if the call returns on a mapping that ends with
    the file [filename], that file matches its pattern and the result is
    its group 1. *)
Theorem files_version_returns_last_capture (fs : store)
    (files : list (str * regex)) (filename : str) (regex : regex)
    (r : option str) :
  files_version fs (files ++ [(filename, regex)]) = Ok r ->
  exists contents m,
    fs filename = Some contents
    /\ search regex contents = Some m
    /\ group1 m = Ok r.
Proof.
  unfold files_version. rewrite files_version_loop_app.
  destruct (files_version_loop fs files None) as [acc |]; [| discriminate].
  cbn [files_version_loop].
  destruct (fs filename) as [contents |] eqn:Ef; [| discriminate].
  destruct (search regex contents) as [m |] eqn:Es; [| discriminate].
  destruct (group1 m) as [fv | e] eqn:Eg; [| discriminate].
  destruct (truthy acc && negb (opt_str_eqb acc fv)); [discriminate |].
  intros H. injection H as <-. exists contents, m.
  split; [reflexivity |]. split; [exact Es | exact Eg].
Qed.

Lemma files_version_returns_last_capture_witness :
  exists contents m,
    store_of [(lit "a", lit "VERSION=1.0"); (lit "b", lit "x VERSION=1.0")]
             (lit "b") = Some contents
    /\ search version_line_re contents = Some m
    /\ group1 m = Ok (Some (lit "1.0")).
Proof.
  apply (@files_version_returns_last_capture
           (store_of [(lit "a", lit "VERSION=1.0");
                      (lit "b", lit "x VERSION=1.0")])
           [(lit "a", version_line_re)] (lit "b") version_line_re
           (Some (lit "1.0"))).
  vm_compute. reflexivity.
Defined.

(** X10.  [update_files_version] neither creates nor removes a file: a
    name has a file after the call exactly when it had one before,
    whether the call returns or raises. *)
Theorem update_files_version_keeps_the_files (files : list (str * regex))
    (version : str) (fs : store) (f : str) :
  fst (update_files_version files version fs) f = None <-> fs f = None.
Proof. apply update_files_version_exists. Qed.

(** ** Reconciliation as one filter *)

Module ReconcileMore.



Lemma filter_filter {A : Type} (f g : A -> bool) l :
  filter g (filter f l) = filter (fun x => f x && g x) l.
Proof.
  induction l as [| x tl IH]; [reflexivity |].
  cbn [filter]. destruct (f x); cbn [filter andb].
  - destruct (g x); rewrite IH; reflexivity.
  - exact IH.
Qed.

Lemma Forall_filter {A : Type} (P : A -> Prop) (f : A -> bool) l :
  Forall P l -> Forall P (filter f l).
Proof.
  intros H. apply Forall_forall. intros x Hx.
  apply filter_In in Hx. rewrite Forall_forall in H. apply H, Hx.
Qed.

(** On texts that parse, [reconcile] is the filter [outstanding]. *)
Lemma reconcile_dotted releases builds baseline :
  dotted baseline = true ->
  Forall (fun r => dotted (version r) = true) releases ->
  reconcile releases builds (Some baseline)
  = Ok (filter (outstanding baseline builds) releases).
Proof.
  intros Hb Hr. unfold reconcile.
  rewrite (@parse_version_dotted _ Hb), (@baseline_filter_dotted baseline _ Hr).
  unfold exclude_built. rewrite filter_filter. reflexivity.
Qed.


(** The first index at which two tuples differ, below a bound. *)
Lemma first_difference (a b : list N) :
  forall i,
    (forall j, j < i -> component a j = component b j)
    \/ exists j, j < i /\ (forall k, k < j -> component a k = component b k)
                 /\ component a j <> component b j.
Proof.
  induction i as [| i IH].
  - left. intros j Hj. lia.
  - destruct IH as [Heq | (j & Hj & Hlow & Hne)].
    + destruct (N.eq_dec (component a i) (component b i)) as [E | E].
      * left. intros j Hj.
        destruct (Nat.eq_dec j i) as [-> | Hn]; [exact E |].
        apply Heq. lia.
      * right. exists i. split; [lia |]. split; assumption.
    + right. exists j. split; [lia |]. split; assumption.
Qed.

(** The numeric order is a linear order: what is above [b] is above
    anything that is not above [b]. *)
Lemma numeric_lt_le_trans a b x :
  ~ numeric_lt b a -> numeric_lt b x -> numeric_lt a x.
Proof.
  intros Hle (i & Hlow & Hlt).
  destruct (first_difference a b i) as [Heq | (j & Hj & Hjlow & Hne)].
  - exists i. split.
    + intros j Hj. rewrite (Heq j Hj). apply Hlow, Hj.
    + destruct (N.lt_ge_cases (component b i) (component a i)) as [Hgt | Hge].
      * exfalso. apply Hle. exists i. split; [| exact Hgt].
        intros j Hj. symmetry. apply Heq, Hj.
      * lia.
  - exists j. split.
    + intros k Hk. rewrite (Hjlow k Hk). apply Hlow. lia.
    + rewrite <- (Hlow j Hj).
      destruct (N.lt_ge_cases (component b j) (component a j)) as [Hgt | Hge].
      * exfalso. apply Hle. exists j. split; [| exact Hgt].
        intros k Hk. symmetry. apply Hjlow, Hk.
      * lia.
Qed.

End ReconcileMore.

Import ReconcileMore.

(** X11.  Reconciliation is one filter over the releases, in their
    order: when the baseline and the release versions are dotted texts,
    [reconcile] returns the releases that are numerically above the
    baseline and whose version text is carried by no build, each as
    often and in the order in which the release list has it. *)
Theorem reconcile_keeps_outstanding_in_order (releases : list Release)
    (builds : list DockerBuild) (baseline : str) :
  dotted baseline = true ->
  Forall (fun r => dotted (version r) = true) releases ->
  reconcile releases builds (Some baseline)
  = Ok (filter (outstanding baseline builds) releases)
  /\ forall r,
       outstanding baseline builds r = true
       <-> numeric_lt (components baseline) (components (version r))
           /\ ~ In (version r) (build_versions builds).
Proof.
  intros Hb Hr. split; [exact (@reconcile_dotted _ builds _ Hb Hr) |].
  intros r. unfold outstanding.
  rewrite andb_true_iff, newer_than_numeric, negb_true_iff.
  split; intros [H1 H2]; (split; [exact H1 |]).
  - intros Hin. apply str_in_In in Hin. congruence.
  - destruct (str_in (version r) (build_versions builds)) eqn:E;
      [| reflexivity].
    exfalso. apply H2, str_in_In, E.
Qed.

Lemma reconcile_keeps_outstanding_in_order_witness :
  reconcile [release_with (lit "1.10"); release_with (lit "1.9");
             release_with (lit "2.0"); release_with (lit "2.1")]
            [build_with (lit "2.0")] (Some (lit "1.9"))
  = Ok (filter (outstanding (lit "1.9") [build_with (lit "2.0")])
          [release_with (lit "1.10"); release_with (lit "1.9");
           release_with (lit "2.0"); release_with (lit "2.1")])
  /\ forall r,
       outstanding (lit "1.9") [build_with (lit "2.0")] r = true
       <-> numeric_lt (components (lit "1.9")) (components (version r))
           /\ ~ In (version r) (build_versions [build_with (lit "2.0")]).
Proof.
  apply (@reconcile_keeps_outstanding_in_order
           [release_with (lit "1.10"); release_with (lit "1.9");
            release_with (lit "2.0"); release_with (lit "2.1")]
           [build_with (lit "2.0")] (lit "1.9")).
  - reflexivity.
  - repeat constructor.
Defined.



(** X13.  Raising the baseline never adds a release: when [high] is
    numerically not below [low], what [reconcile] returns for the
    baseline [high] is what it returns for [low], reconciled again
    against [high]; so every release kept for [high] is kept for
    [low]. *)
Theorem reconcile_higher_baseline_keeps_fewer (releases : list Release)
    (builds : list DockerBuild) (low high : str) :
  dotted low = true ->
  dotted high = true ->
  Forall (fun r => dotted (version r) = true) releases ->
  ~ numeric_lt (components high) (components low) ->
  exists out_low out_high,
    reconcile releases builds (Some low) = Ok out_low
    /\ reconcile releases builds (Some high) = Ok out_high
    /\ reconcile out_low builds (Some high) = Ok out_high
    /\ forall r, In r out_high -> In r out_low.
Proof.
  intros Hl Hh Hr Hle.
  assert (Himp : forall r, outstanding high builds r = true ->
                           outstanding low builds r = true).
  { intros r. unfold outstanding. rewrite !andb_true_iff.
    intros [H1 H2]. split; [| exact H2].
    apply newer_than_numeric. apply newer_than_numeric in H1.
    exact (@numeric_lt_le_trans _ _ _ Hle H1). }
  exists (filter (outstanding low builds) releases),
         (filter (outstanding high builds) releases).
  split; [exact (@reconcile_dotted _ builds _ Hl Hr) |].
  split; [exact (@reconcile_dotted _ builds _ Hh Hr) |].
  split.
  - rewrite (@reconcile_dotted _ builds _ Hh (@Forall_filter _ _ _ _ Hr)).
    rewrite filter_filter. f_equal. apply filter_ext_in.
    intros r _. destruct (outstanding high builds r) eqn:E.
    + rewrite (Himp r E). reflexivity.
    + apply andb_false_r.
  - intros r Hin. apply filter_In in Hin. apply filter_In.
    split; [apply Hin | apply Himp, Hin].
Qed.

Lemma reconcile_higher_baseline_keeps_fewer_witness :
  exists out_low out_high,
    reconcile [release_with (lit "1.10"); release_with (lit "1.9");
               release_with (lit "2.0")] [] (Some (lit "1.8"))
    = Ok out_low
    /\ reconcile [release_with (lit "1.10"); release_with (lit "1.9");
                  release_with (lit "2.0")] [] (Some (lit "1.9.0"))
       = Ok out_high
    /\ reconcile out_low [] (Some (lit "1.9.0")) = Ok out_high
    /\ forall r, In r out_high -> In r out_low.
Proof.
  apply (@reconcile_higher_baseline_keeps_fewer
           [release_with (lit "1.10"); release_with (lit "1.9");
            release_with (lit "2.0")] [] (lit "1.8") (lit "1.9.0")).
  - reflexivity.
  - reflexivity.
  - repeat constructor.
  - intros (i & Hlow & Hlt).
    unfold component in Hlt.
    destruct i as [| [| [| [| i]]]]; vm_compute in Hlt; discriminate.
Defined.

(** ** The whole run *)

Module MainFacts.

Lemma update_files_version_frame version files :
  forall fs f,
    ~ In f (map fst files) ->
    fst (update_files_version files version fs) f = fs f.
Proof.
  induction files as [| [filename regex] tl IH]; intros fs f Hf;
    cbn [update_files_version]; [reflexivity |].
  cbn [map fst In] in Hf.
  destruct (fs filename) as [contents |]; [| reflexivity].
  destruct (search regex contents) as [m |]; [| reflexivity].
  destruct (span1 m) as [span | e]; [| reflexivity].
  rewrite IH by tauto. apply write_other. intros ->. tauto.
Qed.




Lemma providers_accepted config :
  lower (source_provider config) = lit "github" ->
  lower (docker_provider config) = lit "dockerhub" ->
  str_eqb (lower (source_provider config)) (lower (lit "Github")) = true
  /\ str_eqb (lower (docker_provider config)) (lower (lit "Dockerhub")) = true.
Proof.
  intros -> ->. split; reflexivity.
Qed.

Lemma exclude_built_nil releases : exclude_built releases [] = releases.
Proof.
  unfold exclude_built. cbn [build_versions map str_in existsb negb].
  induction releases as [| r tl IH]; [reflexivity |].
  cbn [filter]. rewrite IH. reflexivity.
Qed.


End MainFacts.

Import MainFacts.

(** X14.  The build history can stop a run and nothing else: with both
    providers accepted, a tracked version that is a dotted text and any
    two answers of the services, [main] raises [NameError] when some
    build of the history passes the three tests of [get_builds], and
    otherwise publishes every release of the listing that is numerically
    above the tracked version; no release is ever left out because of a
    build. *)
Theorem main_build_history_only_stops_the_run (Env : Type)
    (os_system : command -> store -> Env -> Env * Z) (config : Config)
    (releases_dict : list release_dict) (results : list build_dict)
    (w : world Env) (baseline : str) :
  lower (source_provider config) = lit "github" ->
  lower (docker_provider config) = lit "dockerhub" ->
  files_version (w_files w) (files config) = Ok (Some baseline) ->
  dotted baseline = true ->
  main os_system config releases_dict results w
  = if existsb kept results then (w, Raise (NameError "release_dict"))
    else publish_loop os_system config
           (filter (newer_than baseline) (get_releases 5 releases_dict)) w.
Proof.
  intros Hs Hd Hf Hb.
  destruct (providers_accepted config Hs Hd) as [Es Ed].
  unfold main. rewrite Es, Ed. cbn [negb].
  rewrite get_builds_outcome.
  destruct (existsb kept results); [reflexivity |].
  unfold main_reconcile. rewrite Hf.
  rewrite (@reconcile_dotted _ [] _ Hb (get_releases_dotted 5 releases_dict)).
  assert (E : filter (outstanding baseline []) (get_releases 5 releases_dict)
              = filter (newer_than baseline) (get_releases 5 releases_dict)).
  { apply filter_ext. intros r. unfold outstanding.
    cbn [build_versions map str_in existsb negb]. apply andb_true_r. }
  rewrite E.
  destruct (filter (newer_than baseline) (get_releases 5 releases_dict));
    reflexivity.
Qed.

Lemma main_build_history_only_stops_the_run_witness :
  main push_fails sample_config
       (map rd_of_tag [lit "v1.10"; lit "v1.9"; lit "v1.8"])
       [MkBuildDict (lit "v1.9") 10]
       (MkWorld (store_of [(lit "Dockerfile", lit "VERSION=1.8")]) tt [])
  = (MkWorld (store_of [(lit "Dockerfile", lit "VERSION=1.8")]) tt [],
     Raise (NameError "release_dict")).
Proof.
  apply (@main_build_history_only_stops_the_run unit push_fails sample_config
           (map rd_of_tag [lit "v1.10"; lit "v1.9"; lit "v1.8"])
           [MkBuildDict (lit "v1.9") 10]
           (MkWorld (store_of [(lit "Dockerfile", lit "VERSION=1.8")]) tt [])
           (lit "1.8")); reflexivity.
Defined.


(** X16.  [update_files_version] writes tracked files only: a file whose
    name is not in the mapping holds afterwards what it held before,
    whether the call returns or raises. *)
Theorem update_files_version_writes_tracked_files_only
    (files : list (str * regex)) (version : str) (fs : store) (f : str) :
  ~ In f (map fst files) ->
  fst (update_files_version files version fs) f = fs f.
Proof.
  apply update_files_version_frame.
Qed.

Lemma update_files_version_writes_tracked_files_only_witness :
  fst (update_files_version [(lit "Dockerfile", version_line_re)]
         (lit "1.0.1")
         (store_of [(lit "Dockerfile", lit "VERSION=1.0.0");
                    (lit "README", lit "VERSION=1.0.0")]))
      (lit "README")
  = store_of [(lit "Dockerfile", lit "VERSION=1.0.0");
              (lit "README", lit "VERSION=1.0.0")] (lit "README").
Proof.
  apply (@update_files_version_writes_tracked_files_only
           [(lit "Dockerfile", version_line_re)] (lit "1.0.1")
           (store_of [(lit "Dockerfile", lit "VERSION=1.0.0");
                      (lit "README", lit "VERSION=1.0.0")])
           (lit "README")).
  cbn [map fst In]. intros [H | []]. vm_compute in H. discriminate.
Defined.


(** ** Command lines and addresses *)

Module Quoting.

Ltac absurd_test H := vm_compute in H; discriminate H.

Lemma is_char_eq x c : is_char x c = true -> c = x.
Proof.
  unfold is_char. intros H. apply Nat.eqb_eq in H. apply code_inj, H.
Qed.

Lemma quote_char_unsafe : is_safe "'"%char = false.
Proof. reflexivity. Qed.

Lemma replace_quotes_length s : length s <= length (replace_quotes s).
Proof.
  induction s as [| c tl IH]; [apply le_n |].
  cbn [replace_quotes]. destruct (is_char "'"%char c); cbn [length]; lia.
Qed.

Lemma replace_quotes_nil s : replace_quotes s = [] -> s = [].
Proof.
  destruct s as [| c tl]; [reflexivity |].
  cbn [replace_quotes]. destruct (is_char "'"%char c); discriminate.
Qed.

(** After the opening quote, a quoted word followed by a closing text
    reads back in one way only. *)
Lemma replace_quotes_delimited a :
  forall b x y,
    continues x = false -> continues y = false ->
    replace_quotes a ++ "'"%char :: x = replace_quotes b ++ "'"%char :: y ->
    a = b /\ x = y.
Proof.
  induction a as [| c a IH]; intros [| d b] x y Hx Hy H.
  - cbn in H. injection H as ->. split; reflexivity.
  - exfalso. cbn [replace_quotes app] in H.
    destruct (is_char "'"%char d) eqn:Ed.
    + cbn [app] in H. injection H as ->. absurd_test Hx.
    + cbn [app] in H. injection H as E _. subst d. absurd_test Ed.
  - exfalso. cbn [replace_quotes app] in H.
    destruct (is_char "'"%char c) eqn:Ec.
    + cbn [app] in H. injection H as <-. absurd_test Hy.
    + cbn [app] in H. injection H as E _. subst c. absurd_test Ec.
  - cbn [replace_quotes] in H.
    destruct (is_char "'"%char c) eqn:Ec, (is_char "'"%char d) eqn:Ed;
      cbn [app] in H.
    + injection H as H. apply is_char_eq in Ec, Ed. subst c d.
      destruct (IH _ _ _ Hx Hy H) as [-> ->]. split; reflexivity.
    + injection H as E _. subst d. absurd_test Ed.
    + injection H as E _. subst c. absurd_test Ec.
    + injection H as -> H.
      destruct (IH _ _ _ Hx Hy H) as [-> ->]. split; reflexivity.
Qed.

Lemma safe_delimited a :
  forall b x y,
    forallb is_safe a = true -> forallb is_safe b = true ->
    starts_with_safe x = false -> starts_with_safe y = false ->
    a ++ x = b ++ y -> a = b /\ x = y.
Proof.
  induction a as [| c a IH]; intros [| d b] x y Ha Hb Hx Hy H;
    cbn [app forallb] in *.
  - split; [reflexivity | exact H].
  - exfalso. subst x. cbn [starts_with_safe] in Hx.
    apply andb_true_iff in Hb. destruct Hb as [Hd _]. congruence.
  - exfalso. subst y. cbn [starts_with_safe] in Hy.
    apply andb_true_iff in Ha. destruct Ha as [Hc _]. congruence.
  - apply andb_true_iff in Ha, Hb. destruct Ha as [_ Ha], Hb as [_ Hb].
    injection H as -> H.
    destruct (IH _ _ _ Ha Hb Hx Hy H) as [-> ->]. split; reflexivity.
Qed.

(** The three shapes of a quoted argument. *)
Lemma quote_cases s :
  (s = [] /\ quote s = lit "''")
  \/ (s <> [] /\ forallb is_safe s = true /\ quote s = s)
  \/ (s <> [] /\ forallb is_safe s = false
      /\ quote s = "'"%char :: replace_quotes s ++ ["'"%char]).
Proof.
  destruct s as [| c tl]; [left; split; reflexivity |].
  unfold quote. destruct (forallb is_safe (c :: tl)) eqn:E.
  - right. left. repeat split. discriminate.
  - right. right. repeat split. discriminate.
Qed.

(** A quoted argument followed by a closing text reads back in one way
    only. *)
Lemma quote_delimited a b x y :
  closes x -> closes y ->
  quote a ++ x = quote b ++ y -> a = b /\ x = y.
Proof.
  intros [Sx Cx] [Sy Cy] H.
  destruct (quote_cases a) as [[Ea Qa] | [(Na & Sa & Qa) | (Na & Ua & Qa)]];
    destruct (quote_cases b) as [[Eb Qb] | [(Nb & Sb & Qb) | (Nb & Ub & Qb)]];
    rewrite Qa, Qb in H.
  - subst a b. cbn in H. injection H as ->. split; reflexivity.
  - exfalso. subst a. destruct b as [| d b]; [congruence |].
    cbn in H. injection H as <- _. cbn [forallb] in Sb.
    rewrite quote_char_unsafe in Sb. discriminate.
  - exfalso. subst a. cbn [lit list_ascii_of_string app] in H.
    injection H as H. rewrite <- app_assoc in H. cbn [app] in H.
    destruct (@replace_quotes_delimited [] b x y Cx Cy H) as [E _].
    congruence.
  - exfalso. subst b. destruct a as [| c a]; [congruence |].
    cbn in H. injection H as -> _. cbn [forallb] in Sa.
    rewrite quote_char_unsafe in Sa. discriminate.
  - exact (@safe_delimited a b x y Sa Sb Sx Sy H).
  - exfalso. destruct a as [| c a]; [congruence |].
    cbn [app] in H. injection H as -> _. cbn [forallb] in Sa.
    rewrite quote_char_unsafe in Sa. discriminate.
  - exfalso. subst b. cbn [lit list_ascii_of_string app] in H.
    injection H as H. rewrite <- app_assoc in H. cbn [app] in H.
    destruct (@replace_quotes_delimited a [] x y Cx Cy H) as [E _].
    congruence.
  - exfalso. destruct b as [| d b]; [congruence |].
    cbn [app] in H. injection H as <- _. cbn [forallb] in Sb.
    rewrite quote_char_unsafe in Sb. discriminate.
  - cbn [app] in H. injection H as H. rewrite <- !app_assoc in H.
    cbn [app] in H.
    exact (@replace_quotes_delimited a b x y Cx Cy H).
Qed.

Lemma closes_nil : closes [].
Proof. split; reflexivity. Qed.

Lemma dotted_safe v : dotted v = true -> forallb is_safe v = true.
Proof.
  intros H. apply dotted_chars in H. apply forallb_forall. intros c Hc.
  rewrite Forall_forall in H. specialize (H c Hc).
  unfold is_digit, is_char in H. unfold is_safe.
  change (code "."%char) with 46 in H.
  destruct H as [H | H].
  - rewrite H. reflexivity.
  - apply Nat.eqb_eq in H. rewrite H. reflexivity.
Qed.

(** Splitting at the first slash. *)
Lemma slash_delimited a :
  forall b x y,
    forallb (fun c => negb (is_char "/"%char c)) a = true ->
    forallb (fun c => negb (is_char "/"%char c)) b = true ->
    a ++ "/"%char :: x = b ++ "/"%char :: y -> a = b /\ x = y.
Proof.
  induction a as [| c a IH]; intros [| d b] x y Ha Hb H;
    cbn [app forallb] in *.
  - injection H as ->. split; reflexivity.
  - exfalso. injection H as <- _. discriminate Hb.
  - exfalso. injection H as -> _. discriminate Ha.
  - apply andb_true_iff in Ha, Hb. destruct Ha as [_ Ha], Hb as [_ Hb].
    injection H as -> H.
    destruct (IH _ _ _ Ha Hb H) as [-> ->]. split; reflexivity.
Qed.

End Quoting.

Import Quoting.

(** X18.  [shlex.quote] returns its argument unchanged exactly when the
    argument is not empty and holds safe characters only; the dotted
    version texts are of that kind, so the commit and tag commands hold
    the version as it is. *)
Theorem quote_unchanged_iff_safe :
  (forall s, quote s = s <-> s <> [] /\ forallb is_safe s = true)
  /\ (forall v, dotted v = true -> quote v = v).
Proof.
  assert (A : forall s, quote s = s <-> s <> [] /\ forallb is_safe s = true).
  { intros s. split.
    - intros H.
      destruct (quote_cases s) as [[E Q] | [(N & S & Q) | (N & U & Q)]].
      + subst s. discriminate H.
      + split; assumption.
      + exfalso. rewrite Q in H. apply (f_equal (@length ascii)) in H.
        cbn [length] in H. rewrite length_app in H. cbn [length] in H.
        pose proof (replace_quotes_length s). lia.
    - intros [N S]. destruct s as [| c tl]; [congruence |].
      unfold quote. rewrite S. reflexivity. }
  split; [exact A |].
  intros v Hv. apply A. split.
  - intros ->. discriminate Hv.
  - apply dotted_safe, Hv.
Qed.

(** X19.  [shlex.quote] loses nothing: two arguments with the same
    quoted text are the same argument. *)
Theorem quote_injective (a b : str) : quote a = quote b <-> a = b.
Proof.
  split; [| intros ->; reflexivity].
  intros H.
  apply (@quote_delimited a b [] [] closes_nil closes_nil).
  rewrite !app_nil_r. exact H.
Qed.

(** X20.  The text handed to [os.system] determines the command: two
    commands of [create_version_commit] with the same command line have
    the same shape and the same file name, identity value, service name
    and version. *)
Theorem command_line_injective (c c' : command) :
  command_line c = command_line c' <-> c = c'.
Proof.
  split; [| intros ->; reflexivity].
  assert (Cq : forall x, closes (dq :: " "%char :: x))
    by (intros x; split; reflexivity).
  assert (Cs : forall x, closes (" "%char :: x))
    by (intros x; split; reflexivity).
  assert (Cd : closes [dq]) by (split; reflexivity).
  destruct c, c'; cbn [command_line lit list_ascii_of_string app];
    intros H; try discriminate H; try reflexivity.
  - injection H as H.
    destruct (@quote_delimited _ _ _ _ Cd Cd H) as [-> _]. reflexivity.
  - injection H as H.
    destruct (@quote_delimited _ _ _ _ Cd Cd H) as [-> _]. reflexivity.
  - injection H as H.
    destruct (@quote_delimited _ _ _ _ Cd Cd H) as [-> _]. reflexivity.
  - injection H as H.
    destruct (@quote_delimited _ _ _ _ (Cs _) (Cs _) H) as [-> H'].
    injection H' as H'.
    destruct (@quote_delimited _ _ _ _ Cd Cd H') as [-> _]. reflexivity.
  - injection H as H.
    destruct (@quote_delimited _ _ _ _ (Cq _) (Cq _) H) as [-> _].
    reflexivity.
Qed.

(** X21.  The two service addresses name the repository: the address of
    the releases is the fixed prefix, the user name, a slash, the
    repository name and the fixed suffix, and for user names without a
    slash two addresses are equal only for the same user and repository
    names; the same holds for the address of the build history. *)
Theorem service_urls_name_the_repository (username username' : str)
    (repo_name repo_name' : str) :
  forallb (fun c => negb (is_char "/"%char c)) username = true ->
  forallb (fun c => negb (is_char "/"%char c)) username' = true ->
  (releases_url username repo_name = releases_url username' repo_name'
   <-> username = username' /\ repo_name = repo_name')
  /\ (builds_url username repo_name = builds_url username' repo_name'
      <-> username = username' /\ repo_name = repo_name').
Proof.
  intros Hu Hu'. split; (split; [| intros [-> ->]; reflexivity]).
  - unfold releases_url. intros H. apply app_inv_head in H.
    destruct (@slash_delimited _ _ _ _ Hu Hu' H) as [-> H'].
    apply app_inv_tail in H'. split; [reflexivity | exact H'].
  - unfold builds_url. intros H. apply app_inv_head in H.
    destruct (@slash_delimited _ _ _ _ Hu Hu' H) as [-> H'].
    apply app_inv_tail in H'. split; [reflexivity | exact H'].
Qed.

Lemma service_urls_name_the_repository_witness :
  (releases_url (lit "mooncake4132") (lit "dfvsync")
   = releases_url (lit "mooncake4132") (lit "dfvsync/releases")
   <-> lit "mooncake4132" = lit "mooncake4132"
       /\ lit "dfvsync" = lit "dfvsync/releases")
  /\ (builds_url (lit "mooncake4132") (lit "dfvsync")
      = builds_url (lit "mooncake4132") (lit "dfvsync/releases")
      <-> lit "mooncake4132" = lit "mooncake4132"
          /\ lit "dfvsync" = lit "dfvsync/releases").
Proof.
  apply (@service_urls_name_the_repository
           (lit "mooncake4132") (lit "mooncake4132")
           (lit "dfvsync") (lit "dfvsync/releases")); reflexivity.
Defined.

(** ** Reading, then rewriting *)

Module ReadThenWrite.

Lemma group1_span1 m v : group1 m = Ok v -> exists span, span1 m = Ok span.
Proof.
  unfold group1. destruct (span1 m) as [span | e]; [| discriminate].
  intros _. exists span. reflexivity.
Qed.

Lemma update_after_read version files :
  forall fs fs' acc v,
    NoDup (map fst files) ->
    (forall f, In f (map fst files) -> fs' f = fs f) ->
    files_version_loop fs files acc = Ok v ->
    snd (update_files_version files version fs') = Ok tt.
Proof.
  induction files as [| [filename regex] tl IH]; intros fs fs' acc v Hn Hs H;
    cbn [update_files_version]; [reflexivity |].
  cbn [files_version_loop] in H. cbn [map fst] in Hn, Hs.
  rewrite (Hs filename (or_introl eq_refl)).
  destruct (fs filename) as [contents |]; [| discriminate].
  destruct (search regex contents) as [m |]; [| discriminate].
  destruct (group1 m) as [fv | e] eqn:Eg; [| discriminate].
  destruct (@group1_span1 _ _ Eg) as [span Es]. rewrite Es.
  destruct (truthy acc && negb (opt_str_eqb acc fv)); [discriminate |].
  inversion Hn as [| x l Hnotin Hn' E]. subst x l.
  apply (IH fs _ fv v Hn'); [| exact H].
  intros f Hf. rewrite write_other.
  - apply Hs. right. exact Hf.
  - intros ->. exact (Hnotin Hf).
Qed.

End ReadThenWrite.

Import ReadThenWrite.

(** X22.  A rewrite that follows a successful read succeeds: when the
    names of the tracked files are distinct and [files_version] has
    returned on a store, [update_files_version] returns on that store,
    for every version text; it can raise only where [files_version]
    raises. *)
Theorem update_files_version_succeeds_after_read
    (files : list (str * regex)) (version : str) (fs : store)
    (v : option str) :
  NoDup (map fst files) ->
  files_version fs files = Ok v ->
  snd (update_files_version files version fs) = Ok tt.
Proof.
  intros Hn H.
  apply (@update_after_read version files fs fs None v Hn); [| exact H].
  reflexivity.
Qed.

Lemma update_files_version_succeeds_after_read_witness :
  snd (update_files_version
         [(lit "Dockerfile", version_line_re); (lit "README", version_line_re)]
         (lit "1.3.0")
         (store_of [(lit "Dockerfile", lit "ENV VERSION=1.2.0");
                    (lit "README", lit "VERSION=1.2.0 of app")]))
  = Ok tt.
Proof.
  apply (@update_files_version_succeeds_after_read
           [(lit "Dockerfile", version_line_re);
            (lit "README", version_line_re)]
           (lit "1.3.0")
           (store_of [(lit "Dockerfile", lit "ENV VERSION=1.2.0");
                      (lit "README", lit "VERSION=1.2.0 of app")])
           (Some (lit "1.2.0"))).
  - cbn [map fst]. constructor.
    + intros [H | []]. vm_compute in H. discriminate.
    + constructor; [intros [] | constructor].
  - vm_compute. reflexivity.
Defined.

(** X23.  With no tracked file there is no baseline: when the [files]
    section of the configuration is empty, [files_version] returns
    [None], and [main], once both providers are accepted and no build of
    the history passes the tests of [get_builds], raises the [TypeError]
    of [parse_version(None)] with no file written and no command
    issued, whatever the releases are. *)
Theorem main_without_tracked_files_raises_TypeError (Env : Type)
    (os_system : command -> store -> Env -> Env * Z) (config : Config)
    (releases_dict : list release_dict) (results : list build_dict)
    (w : world Env) :
  lower (source_provider config) = lit "github" ->
  lower (docker_provider config) = lit "dockerhub" ->
  existsb kept results = false ->
  files config = [] ->
  files_version (w_files w) (files config) = Ok None
  /\ main os_system config releases_dict results w = (w, Raise TypeError).
Proof.
  intros Hs Hd Hk Hf.
  destruct (providers_accepted config Hs Hd) as [Es Ed].
  rewrite Hf. split; [reflexivity |].
  unfold main. rewrite Es, Ed. cbn [negb].
  rewrite get_builds_outcome, Hk.
  unfold main_reconcile. rewrite Hf. reflexivity.
Qed.

Lemma main_without_tracked_files_raises_TypeError_witness :
  files_version (store_of [(lit "Dockerfile", lit "VERSION=1.8")]) [] = Ok None
  /\ main push_fails
          (MkConfig (lit "GitHub") (lit "app") (lit "DockerHub") [] [] [])
          (map rd_of_tag [lit "v1.9"]) [MkBuildDict (lit "latest") 10]
          (MkWorld (store_of [(lit "Dockerfile", lit "VERSION=1.8")]) tt [])
     = (MkWorld (store_of [(lit "Dockerfile", lit "VERSION=1.8")]) tt [],
        Raise TypeError).
Proof.
  apply (@main_without_tracked_files_raises_TypeError unit push_fails
           (MkConfig (lit "GitHub") (lit "app") (lit "DockerHub") [] [] [])
           (map rd_of_tag [lit "v1.9"]) [MkBuildDict (lit "latest") 10]
           (MkWorld (store_of [(lit "Dockerfile", lit "VERSION=1.8")]) tt []));
    reflexivity.
Defined.
